(** * Kosmos: helper packages and clusterlink data contracts

    A shallow embedding of the Go sources

    - [pkg/knode-manager/adapters/k8s/help.go]   (package [k8sadapter]),
    - the [utils] package (constants, patches, signal handler, node and
      object helpers),
    - the clusterlink CRD manifests of package [manifest],

    together with the properties the design document states about them. *)

From Stdlib Require Import ZArith Bool Lia Ascii Floats.SpecFloat.
From stdpp Require Import base option list strings gmap.

Local Open Scope string_scope.
Local Open Scope list_scope.

Set Warnings "-register-all".
Set Warnings "-notation-incompatible-prefix".

(** ** Go runtime conventions *)

(** The [error] values that reach the callers modelled here. *)
Inductive error : Type :=
| UnsupportedTypeError    (* encoding/json: func, chan and complex values *)
| UnsupportedValueError   (* encoding/json: NaN and the infinities *)
| UnmarshalTypeError      (* encoding/json: the document does not fit the target *)
| errBadJSONDoc           (* json-patch: "Invalid JSON Document" *)
| errBadMergeTypes.       (* json-patch: "Mismatched JSON Documents" *)

(** A Go call returns, or returns a non-nil [error] as its last result
    (when it has one), or panics: a run-time error such as a nil dereference
    or the closing of a closed channel. *)
Inductive outcome (A : Type) : Type :=
| Returns (a : A)
| Fails (err : error)
| Panics (why : string).
Arguments Returns {A} a.
Arguments Fails {A} err.
Arguments Panics {A} why.

Global Instance outcome_ret : MRet outcome := fun A a => Returns a.
Global Instance outcome_bind : MBind outcome := fun A B k m =>
  match m with
  | Returns a => k a
  | Fails err => Fails err
  | Panics why => Panics why
  end.

Definition nil_dereference : string :=
  "invalid memory address or nil pointer dereference".

(** [p.f] through a pointer [p]: nil is [None]. *)
Definition deref {A} (p : option A) : outcome A :=
  match p with
  | Some a => Returns a
  | None => Panics nil_dereference
  end.

(** [v, ok := m[k]] on a [map[string]string]; the nil map is [None] and reads
    like the empty map. *)
Definition map_index (m : option (gmap string string)) (k : string)
  : string * bool :=
  match m with
  | Some g => match g !! k with
              | Some v => (v, true)
              | None => ("", false)
              end
  | None => ("", false)
  end.

(** [range] over a slice: the nil slice is [None] and has no element. *)
Definition elems {A} (s : option (list A)) : list A := default [] s.

(** [append(s, x)]: never nil afterwards. *)
Definition append {A} (s : option (list A)) (x : A) : option (list A) :=
  Some (elems s ++ [x]).

(** ** The Kubernetes API types the helpers read (k8s.io/api/core/v1)

    The package is a dependency: only the declarations of its types are
    used, pointers as [option]s. Fields that no helper names are kept (owner
    references as their names) so that the frame properties can speak about
    them. *)

Module LocalObjectReference.
Record t := { Name : string }.
End LocalObjectReference.

Module SecretVolumeSource.
Record t := { SecretName : string; Optional : option bool }.
End SecretVolumeSource.

(** [SecretRef] is an optional pointer in the three sources below. *)
Module CephFSVolumeSource.
Record t := { Monitors : list string; Path : string; User : string;
              SecretFile : string;
              SecretRef : option LocalObjectReference.t;
              ReadOnly : bool }.
End CephFSVolumeSource.

Module CinderVolumeSource.
Record t := { VolumeID : string; FSType : string; ReadOnly : bool;
              SecretRef : option LocalObjectReference.t }.
End CinderVolumeSource.

Module RBDVolumeSource.
Record t := { CephMonitors : list string; RBDImage : string;
              FSType : string; RBDPool : string; RadosUser : string;
              Keyring : string;
              SecretRef : option LocalObjectReference.t;
              ReadOnly : bool }.
End RBDVolumeSource.

(** [ConfigMapVolumeSource] embeds a [LocalObjectReference], whose [Name] is
    promoted. *)
Module ConfigMapVolumeSource.
Record t := { Name : string; Optional : option bool }.
End ConfigMapVolumeSource.

Module PersistentVolumeClaimVolumeSource.
Record t := { ClaimName : string; ReadOnly : bool }.
End PersistentVolumeClaimVolumeSource.

(** A [Volume] embeds its [VolumeSource]: one pointer per kind of source. *)
Module Volume.
Record t := {
  Name : string;
  Secret : option SecretVolumeSource.t;
  CephFS : option CephFSVolumeSource.t;
  Cinder : option CinderVolumeSource.t;
  RBD : option RBDVolumeSource.t;
  ConfigMap : option ConfigMapVolumeSource.t;
  PersistentVolumeClaim : option PersistentVolumeClaimVolumeSource.t }.
End Volume.

Module ObjectMeta.
Record t := {
  Name : string;
  GenerateName : string;
  Namespace : string;
  UID : string;
  ResourceVersion : string;
  Generation : Z;
  Labels : option (gmap string string);
  Annotations : option (gmap string string);
  OwnerReferences : option (list string);
  Finalizers : option (list string) }.

Definition set_Labels (l : option (gmap string string)) (m : t) : t :=
  {| Name := Name m; GenerateName := GenerateName m;
     Namespace := Namespace m; UID := UID m;
     ResourceVersion := ResourceVersion m; Generation := Generation m;
     Labels := l; Annotations := Annotations m;
     OwnerReferences := OwnerReferences m; Finalizers := Finalizers m |}.
End ObjectMeta.

Module TypeMeta.
Record t := { Kind : string; APIVersion : string }.
End TypeMeta.

Module PodSpec.
Record t := {
  Volumes : option (list Volume.t);
  ImagePullSecrets : option (list LocalObjectReference.t);
  NodeName : string }.
End PodSpec.

Module Pod.
Record t := { ObjectMeta : ObjectMeta.t; Spec : PodSpec.t }.
(** [pod.Name] is promoted from the embedded [ObjectMeta]. *)
Definition Name (p : t) : string := ObjectMeta.Name (ObjectMeta p).
End Pod.

Module Node.
Record t := { ObjectMeta : ObjectMeta.t; PodCIDR : string }.
End Node.

Module ConfigMap.
Record t := {
  TypeMeta : TypeMeta.t;
  ObjectMeta : ObjectMeta.t;
  Immutable : option bool;
  Data : option (gmap string string);
  BinaryData : option (gmap string (list Byte.byte)) }.
End ConfigMap.

Module Secret.
Record t := {
  TypeMeta : TypeMeta.t;
  ObjectMeta : ObjectMeta.t;
  Immutable : option bool;
  Data : option (gmap string (list Byte.byte));
  StringData : option (gmap string string);
  Type' : string }.
End Secret.

(** The conditions a node reports. [NodeConditionType] and
    [ConditionStatus] are string types. *)
Module NodeCondition.
Record t := { Type' : string; Status : string; Reason : string; Message : string }.
End NodeCondition.

Definition NodeReady : string := "Ready".
Definition ConditionTrue : string := "True".

Module NodeStatus.
Record t := { Conditions : option (list NodeCondition.t) }.
End NodeStatus.

(** A [*corev1.Node] read for its status: the node as above, and the
    [Status] that [Node.t] leaves out. *)
Definition node_with_status : Type := Node.t * NodeStatus.t.

(** ** Package [strings], as far as [nodeCustomLabel] uses it *)

(** [strings.Split(s, sep)] for a separator of one byte: the pieces of [s]
    between the separators, one more than there are separators. *)
Fixpoint Split (s : string) (sep : Ascii.ascii) : list string :=
  match s with
  | EmptyString => [""]
  | String c s' =>
      if Ascii.eqb c sep then "" :: Split s' sep
      else match Split s' sep with
           | piece :: pieces => String c piece :: pieces
           | [] => [String c ""]
           end
  end.

Definition assignment_to_nil_map : string := "assignment to entry in nil map".

(** ** Package [k8sadapter]: what a pod depends on (help.go)

    The [klog] calls only write to the log and are left out; what their
    arguments read ([v.CephFS.SecretRef.Name] and the like) is read by the
    [append] of the next line all the same. *)

Module k8sadapter.

(** One turn of the loop of [getSecrets]: the [switch] takes the first
    source that is set; [continue] leaves the names as they are. *)
Definition getSecrets_volume (v : Volume.t) (secretNames : option (list string))
  : outcome (option (list string)) :=
  match Volume.Secret v, Volume.CephFS v, Volume.Cinder v, Volume.RBD v with
  | Some s, _, _, _ =>
      if String.prefix "default-token" (Volume.Name v) then Returns secretNames
      else Returns (append secretNames (SecretVolumeSource.SecretName s))
  | None, Some c, _, _ =>
      r ← deref (CephFSVolumeSource.SecretRef c);
      Returns (append secretNames (LocalObjectReference.Name r))
  | None, None, Some c, _ =>
      r ← deref (CinderVolumeSource.SecretRef c);
      Returns (append secretNames (LocalObjectReference.Name r))
  | None, None, None, Some c =>
      r ← deref (RBDVolumeSource.SecretRef c);
      Returns (append secretNames (LocalObjectReference.Name r))
  | None, None, None, None => Returns secretNames
  end.

Fixpoint getSecrets_volumes (vs : list Volume.t) (secretNames : option (list string))
  : outcome (option (list string)) :=
  match vs with
  | [] => Returns secretNames
  | v :: vs' =>
      names ← getSecrets_volume v secretNames;
      getSecrets_volumes vs' names
  end.

Definition getSecrets (pod : option Pod.t) : outcome (option (list string)) :=
  p ← deref pod;
  let secretNames := Some [] in
  secretNames ← getSecrets_volumes (elems (PodSpec.Volumes (Pod.Spec p))) secretNames;
  match PodSpec.ImagePullSecrets (Pod.Spec p) with
  | Some ss =>
      Returns (foldl (fun names s => append names (LocalObjectReference.Name s))
                     secretNames ss)
  | None => Returns secretNames
  end.

Fixpoint getConfigmaps_volumes (vs : list Volume.t) (cmNames : option (list string))
  : option (list string) :=
  match vs with
  | [] => cmNames
  | v :: vs' =>
      match Volume.ConfigMap v with
      | None => getConfigmaps_volumes vs' cmNames
      | Some c =>
          getConfigmaps_volumes vs' (append cmNames (ConfigMapVolumeSource.Name c))
      end
  end.

Definition getConfigmaps (pod : option Pod.t) : outcome (option (list string)) :=
  p ← deref pod;
  Returns (getConfigmaps_volumes (elems (PodSpec.Volumes (Pod.Spec p))) (Some [])).

Fixpoint getPVCs_volumes (vs : list Volume.t) (cmNames : option (list string))
  : option (list string) :=
  match vs with
  | [] => cmNames
  | v :: vs' =>
      match Volume.PersistentVolumeClaim v with
      | None => getPVCs_volumes vs' cmNames
      | Some c =>
          getPVCs_volumes vs'
            (append cmNames (PersistentVolumeClaimVolumeSource.ClaimName c))
      end
  end.

Definition getPVCs (pod : option Pod.t) : outcome (option (list string)) :=
  p ← deref pod;
  Returns (getPVCs_volumes (elems (PodSpec.Volumes (Pod.Spec p))) (Some [])).

(** [checkNodeStatusReady]: the loop over [node.Status.Conditions]. *)
Fixpoint checkNodeStatusReady_conditions (conditions : list NodeCondition.t) : bool :=
  match conditions with
  | [] => false
  | condition :: conditions' =>
      if negb (String.eqb (NodeCondition.Type' condition) NodeReady)
      then checkNodeStatusReady_conditions conditions'
      else if String.eqb (NodeCondition.Status condition) ConditionTrue
           then true
           else checkNodeStatusReady_conditions conditions'
  end.

Definition checkNodeStatusReady (node : option node_with_status) : outcome bool :=
  n ← deref node;
  Returns (checkNodeStatusReady_conditions (elems (NodeStatus.Conditions n.2))).

Definition compareNodeStatusReady (old new : option node_with_status)
  : outcome (bool * bool) :=
  o ← checkNodeStatusReady old;
  n ← checkNodeStatusReady new;
  Returns (o, n).

Definition node_set_Labels (l : option (gmap string string)) (n : Node.t) : Node.t :=
  {| Node.ObjectMeta := ObjectMeta.set_Labels l (Node.ObjectMeta n);
     Node.PodCIDR := Node.PodCIDR n |}.

(** [nodeCustomLabel]: [strings.TrimSpace] is taken as it comes. The result
    is what [node] points to after the call: the write goes into the label
    map of the node, and a nil map cannot be written. A label that does not
    split in two leaves everything alone, the nil pointer too. *)
Section CustomLabel.
Variable TrimSpace : string → string.

Definition nodeCustomLabel (node : option Node.t) (label : string)
  : outcome (option Node.t) :=
  let nodelabel := Split label ":"%char in
  match nodelabel with
  | [key; val] =>   (* len(nodelabel) == 2 *)
      n ← deref node;
      match ObjectMeta.Labels (Node.ObjectMeta n) with
      | Some labels =>
          Returns (Some (node_set_Labels
                           (Some (<[TrimSpace key := TrimSpace val]> labels)) n))
      | None => Panics assignment_to_nil_map
      end
  | _ => Returns node
  end.
End CustomLabel.

End k8sadapter.

(** ** Objects behind pointers

    [*corev1.ConfigMap] and [*corev1.Secret] arguments point into a store of
    objects; two pointers may be the same. The map-typed fields are copied
    as Go copies them (the map header), and no helper writes through one. *)

Definition ptr := option positive.

(** Go keeps an object alive as long as a pointer to it exists: a pointer
    the store has no object for does not occur, and the statements below
    are about pointers that have one. *)
Definition object_missing : string := "pointer without an object".

Section Store.
Context {A : Type}.

(** [*p] *)
Definition load (h : gmap positive A) (p : ptr) : outcome A :=
  l ← deref p;
  match h !! l with
  | Some a => Returns a
  | None => Panics object_missing
  end.

(** [p.f = x], as the update [upd] of the object [p] points to. *)
Definition assign (h : gmap positive A) (p : ptr) (upd : A → A)
  : outcome (gmap positive A) :=
  l ← deref p;
  match h !! l with
  | Some a => Returns (<[l := upd a]> h)
  | None => Panics object_missing
  end.
End Store.

(** ** encoding/json, as far as the patch helpers use it

    Modelled from the spec: [json.Marshal] and [json.Unmarshal] belong to
    Go's standard library and are not among the sources; the spec only says
    that the stored and the desired NodeConfig are compared field by field.
    The definitions follow the package's documented behaviour.

    A JSON text is kept as its syntax tree. A number is carried as what
    [strconv.ParseFloat] makes of its literal: a finite [float64], or an
    infinity when the literal is out of range. *)

Module json.

Inductive doc : Type :=
| JNull
| JBool (b : bool)
| JNumber (f : spec_float)
| JString (s : string)
| JArray (items : list doc)
| JObject (members : list (string * doc)).

(** The dynamic values of [interface{}]: what [Unmarshal] stores into an
    [interface{}], then [VNumber] for a [json.Number], a number kept as its
    literal (which need not fit a [float64]), and [VFunc] for the values
    [Marshal] refuses (func, chan, complex). Structs and maps with string
    keys are [VMap]s from JSON name to value; integers stand as the
    [float64] their literal decodes to. *)
Inductive value : Type :=
| VNil
| VBool (b : bool)
| VFloat64 (f : spec_float)
| VString (s : string)
| VSlice (items : list value)
| VMap (entries : list (string * value))
| VNumber (f : spec_float)
| VFunc.

Definition is_finite (f : spec_float) : bool :=
  match f with
  | S754_zero _ | S754_finite _ _ _ => true
  | S754_infinity _ | S754_nan => false
  end.

(** [m[key]] and [m[key] = v] on a map kept as a list of entries with
    distinct keys. *)
Fixpoint index {V} (m : list (string * V)) (key : string) : option V :=
  match m with
  | [] => None
  | (k, v) :: m' => if String.eqb k key then Some v else index m' key
  end.

Fixpoint store {V} (m : list (string * V)) (key : string) (v : V)
  : list (string * V) :=
  match m with
  | [] => [(key, v)]
  | (k, v') :: m' =>
      if String.eqb k key then (k, v) :: m' else (k, v') :: store m' key v
  end.

(** [Marshal] writes the members of an object sorted by key. *)
Fixpoint sorted_insert {V} (key : string) (v : V) (m : list (string * V))
  : list (string * V) :=
  match m with
  | [] => [(key, v)]
  | (k, v') :: m' =>
      if String.leb key k then (key, v) :: m
      else (k, v') :: sorted_insert key v m'
  end.

Section Walks.
Context {A B : Type} (f : A → outcome B).

(** The elements of an array, one after the other. *)
Fixpoint each (l : list A) : outcome (list B) :=
  match l with
  | [] => Returns []
  | x :: l' => y ← f x; ys ← each l'; Returns (y :: ys)
  end.

(** The entries of a map, written as the members of an object. *)
Fixpoint each_entry (l : list (string * A)) : outcome (list (string * B)) :=
  match l with
  | [] => Returns []
  | (k, x) :: l' => y ← f x; ms ← each_entry l'; Returns (sorted_insert k y ms)
  end.

(** The members of an object, stored into the map [m] as they come. *)
Fixpoint each_member (l : list (string * A)) (m : list (string * B))
  : outcome (list (string * B)) :=
  match l with
  | [] => Returns m
  | (k, x) :: l' => y ← f x; each_member l' (store m k y)
  end.
End Walks.

Fixpoint Marshal (v : value) : outcome doc :=
  match v with
  | VNil => Returns JNull
  | VBool b => Returns (JBool b)
  | VFloat64 f =>
      if is_finite f then Returns (JNumber f) else Fails UnsupportedValueError
  | VString s => Returns (JString s)
  | VSlice items => ds ← each Marshal items; Returns (JArray ds)
  | VMap entries => ms ← each_entry Marshal entries; Returns (JObject ms)
  | VNumber f => Returns (JNumber f)
  | VFunc => Fails UnsupportedTypeError
  end.

(** [Unmarshal(data, &x)] for [x] an [interface{}]: a later member of an
    object replaces an earlier one of the same name. *)
Fixpoint decode (d : doc) : outcome value :=
  match d with
  | JNull => Returns VNil
  | JBool b => Returns (VBool b)
  | JNumber f =>
      if is_finite f then Returns (VFloat64 f) else Fails UnmarshalTypeError
  | JString s => Returns (VString s)
  | JArray items => vs ← each decode items; Returns (VSlice vs)
  | JObject members => m ← each_member decode members []; Returns (VMap m)
  end.

(** [Unmarshal(data, &m)] for [m] a [map[string]interface{}] that is
    empty: [null] makes it the nil map, which reads as the empty one, and
    anything but an object is refused. *)
Definition Unmarshal_map (d : doc) : outcome (list (string * value)) :=
  match d with
  | JNull => Returns []
  | JObject _ =>
      v ← decode d;
      match v with
      | VMap m => Returns m
      | _ => Fails UnmarshalTypeError
      end
  | _ => Fails UnmarshalTypeError
  end.

(** [Unmarshal(data, &docs)] for [docs] an empty [[]json.RawMessage]:
    [null] makes it the nil slice, anything but an array is refused. *)
Definition Unmarshal_raw (d : doc) : outcome (list doc) :=
  match d with
  | JNull => Returns []
  | JArray items => Returns items
  | _ => Fails UnmarshalTypeError
  end.

End json.

(** ** github.com/evanphx/json-patch: [CreateMergePatch] (merge.go)

    Modelled from the spec: the merge-patch generator that
    [utils.CreateMergePatch] calls is a dependency and not among the
    sources. The spec says that the Publisher "computes a field-level merge
    patch" between the stored and the desired NodeConfig, with "merge-patch
    semantics", and takes no action when the diff is empty. The definitions
    below spell this out the way the library's merge.go does it (object
    against object, field by field and recursively; arrays of documents
    element by element), since the result of [utils.CreateMergePatch] is
    whatever the library returns. *)

Module jsonpatch.
Import json.

(** [reflect.TypeOf(av) == reflect.TypeOf(bv)] on decoded values. *)
Definition same_type (av bv : value) : bool :=
  match av, bv with
  | VNil, VNil | VBool _, VBool _ | VFloat64 _, VFloat64 _
  | VString _, VString _ | VSlice _, VSlice _ | VMap _, VMap _
  | VNumber _, VNumber _ | VFunc, VFunc => true
  | _, _ => false
  end.

Section Ranges.
Variable matches : value → value → bool.

(** [for i := range a { if !matchesValue(a[i], b[i]) { return false } }],
    the lengths being equal. *)
Fixpoint range_items (a b : list value) {struct b} : bool :=
  match a, b with
  | x :: a', y :: b' => if negb (matches x y) then false else range_items a' b'
  | _, _ => true
  end.

(** [for key := range bt]: [bt[key]] is the entry at hand, and a key
    that [at] lacks ends the comparison. *)
Fixpoint range_entries (at' : list (string * value)) (bt : list (string * value))
    {struct bt} : bool :=
  match bt with
  | [] => true
  | (key, bv) :: bt' =>
      match index at' key with
      | None => false
      | Some av =>
          if negb (matches av bv) then false else range_entries at' bt'
      end
  end.
End Ranges.

Fixpoint matchesValue (av bv : value) {struct bv} : bool :=
  if negb (same_type av bv) then false else
  match av, bv with
  | VString at', VString bt => String.eqb bt at'
  | VFloat64 at', VFloat64 bt => SFeqb bt at'
  | VBool at', VBool bt => Bool.eqb bt at'
  | VNil, _ => true
  | VMap at', VMap bt =>
      if negb (length bt =? length at')%nat then false
      else range_entries matchesValue at' bt
  | VSlice at', VSlice bt =>
      if negb (length at' =? length bt)%nat then false
      else range_items matchesValue at' bt
  | _, _ => false
  end.

Definition matchesArray (a b : list value) : bool :=
  if negb (length a =? length b)%nat then false
  else range_items matchesValue a b.

(** The two loops of [getDiff(a, b)]. The first ranges over [b] and calls
    [getDiff] on the maps below; the second ranges over [a]. *)
Section Loops.
Variable getDiff : list (string * value) → value → outcome (list (string * value)).
Variable a : list (string * value).

Fixpoint range_b (l into : list (string * value)) {struct l}
  : outcome (list (string * value)) :=
  match l with
  | [] => Returns into
  | (key, bv) :: l' =>
      match index a key with
      | None => range_b l' (store into key bv)
      | Some av =>
          if negb (same_type av bv) then range_b l' (store into key bv)
          else
            match av with
            | VMap at' =>
                dst ← getDiff at' bv;
                if (0 <? length dst)%nat
                then range_b l' (store into key (VMap dst))
                else range_b l' into
            | VString _ | VFloat64 _ | VBool _ =>
                if negb (matchesValue av bv)
                then range_b l' (store into key bv)
                else range_b l' into
            | VSlice at' =>
                match bv with
                | VSlice bt =>
                    if negb (matchesArray at' bt)
                    then range_b l' (store into key bv)
                    else range_b l' into
                | _ => range_b l' into
                end
            | VNil => range_b l' into
            | VNumber _ | VFunc => Panics "Unknown type"
            end
      end
  end.
End Loops.

Definition range_a (b : list (string * value)) (into a : list (string * value))
  : list (string * value) :=
  foldl (fun into '(key, _) =>
           match index b key with
           | None => store into key VNil
           | Some _ => into
           end) into a.

(** [b] comes wrapped in its [VMap], so that the recursion follows the
    nesting of the document. *)
Fixpoint getDiff_in (a : list (string * value)) (b : value) {struct b}
  : outcome (list (string * value)) :=
  match b with
  | VMap b =>
      into ← range_b getDiff_in a b [];
      Returns (range_a b into a)
  | _ => Returns []
  end.

Definition getDiff (a b : list (string * value))
  : outcome (list (string * value)) :=
  getDiff_in a (VMap b).

(** [if err != nil { return nil, e }] *)
Definition or_else {A} (m : outcome A) (e : error) : outcome A :=
  match m with
  | Fails _ => Fails e
  | _ => m
  end.

Definition createObjectMergePatch (originalJSON modifiedJSON : doc)
  : outcome doc :=
  originalDoc ← or_else (Unmarshal_map originalJSON) errBadJSONDoc;
  modifiedDoc ← or_else (Unmarshal_map modifiedJSON) errBadJSONDoc;
  dest ← getDiff originalDoc modifiedDoc;
  Marshal (VMap dest).

Fixpoint createArrayMergePatch_docs (originalDocs modifiedDocs : list doc)
  : outcome (list doc) :=
  match originalDocs, modifiedDocs with
  | original :: originalDocs', modified :: modifiedDocs' =>
      patch ← createObjectMergePatch original modified;
      result ← createArrayMergePatch_docs originalDocs' modifiedDocs';
      Returns (patch :: result)
  | _, _ => Returns []
  end.

Definition createArrayMergePatch (originalJSON modifiedJSON : doc)
  : outcome doc :=
  originalDocs ← or_else (Unmarshal_raw originalJSON) errBadJSONDoc;
  modifiedDocs ← or_else (Unmarshal_raw modifiedJSON) errBadJSONDoc;
  let total := length originalDocs in
  if negb (length modifiedDocs =? total)%nat then Fails errBadJSONDoc
  else
    result ← createArrayMergePatch_docs originalDocs modifiedDocs;
    Returns (JArray result).

(** A text that starts with [[] and ends with []]: for a JSON text, an
    array. *)
Definition resemblesJSONArray (input : doc) : bool :=
  match input with
  | JArray _ => true
  | _ => false
  end.

(** Modelled from the spec: the entry point of the library (see the head of
    this module). Two arrays are patched element by element, two texts that
    are no arrays as objects, and an array against anything else is
    refused. *)
Definition CreateMergePatch (originalJSON modifiedJSON : doc) : outcome doc :=
  let originalResemblesArray := resemblesJSONArray originalJSON in
  let modifiedResemblesArray := resemblesJSONArray modifiedJSON in
  if originalResemblesArray && modifiedResemblesArray
  then createArrayMergePatch originalJSON modifiedJSON
  else if negb originalResemblesArray && negb modifiedResemblesArray
  then createObjectMergePatch originalJSON modifiedJSON
  else Fails errBadMergeTypes.

End jsonpatch.

(** ** Channels, signals and the process (Go runtime, os/signal)

    A process is taken through events: a call of [SetupSignalHandler], the
    arrival of a signal, or a step of one of the goroutines started so far. *)

Inductive Signal : Type := SIGHUP | SIGINT | SIGQUIT | SIGTERM.

Global Instance Signal_eq_dec : EqDecision Signal.
Proof. solve_decision. Defined.





(** ** Package [utils] *)

Module utils.

Definition GlobalLabel := "global".
Definition SelectorKey := "clusterSelector".
Definition SelectedNodeKey := "volume.kubernetes.io/selected-node".
Definition HostNameKey := "kubernetes.io/hostname".
Definition BetaHostNameKey := "beta.kubernetes.io/hostname".
Definition LabelOSBeta := "beta.kubernetes.io/os".
Definition KosmosPodLabel := "kosmos-pod".
Definition KosmosKubeletLabel := "kosmos-kubelet".
Definition TrippedLabels := "tripped-labels".
Definition ClusterID := "clusterID".
Definition NodeType := "type".
Definition BatchPodLabel := "pod-group.scheduling.sigs.k8s.io".
Definition TaintNodeNotReady := "node.kubernetes.io/not-ready".
Definition TaintNodeUnreachable := "node.kubernetes.io/unreachable".
Definition CreatedbyDescheduler := "create-by-descheduler".
Definition DescheduleCount := "sigs.k8s.io/deschedule-count".

Definition IsVirtualNode (node : option Node.t) : outcome bool :=
  match node with
  | None => Returns false
  | Some _ =>
      n ← deref node;
      let '(valStr, exist') :=
        map_index (ObjectMeta.Labels (Node.ObjectMeta n)) NodeType in
      if negb exist' then Returns false
      else Returns (String.eqb valStr KosmosKubeletLabel)
  end.

Definition IsVirtualPod (pod : option Pod.t) : outcome bool :=
  p ← deref pod;
  match ObjectMeta.Labels (Pod.ObjectMeta p) with
  | Some _ =>
      if String.eqb
           (fst (map_index (ObjectMeta.Labels (Pod.ObjectMeta p)) KosmosPodLabel))
           "true"
      then Returns true else Returns false
  | None => Returns false
  end.

Definition GetClusterID (node : option Node.t) : outcome string :=
  match node with
  | None => Returns ""
  | Some _ =>
      n ← deref node;
      let '(clusterName, exist') :=
        map_index (ObjectMeta.Labels (Node.ObjectMeta n)) ClusterID in
      if negb exist' then Returns "" else Returns clusterName
  end.

(** Field assignments on a [ConfigMap]; [Labels] is promoted from the
    embedded [ObjectMeta]. *)
Definition cm_set_Labels (l : option (gmap string string)) (c : ConfigMap.t) :=
  {| ConfigMap.TypeMeta := ConfigMap.TypeMeta c;
     ConfigMap.ObjectMeta := ObjectMeta.set_Labels l (ConfigMap.ObjectMeta c);
     ConfigMap.Immutable := ConfigMap.Immutable c;
     ConfigMap.Data := ConfigMap.Data c;
     ConfigMap.BinaryData := ConfigMap.BinaryData c |}.

Definition cm_set_Data (d : option (gmap string string)) (c : ConfigMap.t) :=
  {| ConfigMap.TypeMeta := ConfigMap.TypeMeta c;
     ConfigMap.ObjectMeta := ConfigMap.ObjectMeta c;
     ConfigMap.Immutable := ConfigMap.Immutable c;
     ConfigMap.Data := d;
     ConfigMap.BinaryData := ConfigMap.BinaryData c |}.

Definition cm_set_BinaryData (d : option (gmap string (list Byte.byte)))
    (c : ConfigMap.t) :=
  {| ConfigMap.TypeMeta := ConfigMap.TypeMeta c;
     ConfigMap.ObjectMeta := ConfigMap.ObjectMeta c;
     ConfigMap.Immutable := ConfigMap.Immutable c;
     ConfigMap.Data := ConfigMap.Data c;
     ConfigMap.BinaryData := d |}.

(** Each statement reads its right-hand side through [new], then writes
    through [old]. *)
Definition UpdateConfigMap (old new : ptr) (h : gmap positive ConfigMap.t)
  : outcome (gmap positive ConfigMap.t) :=
  n ← load h new;
  h ← assign h old (cm_set_Labels (ObjectMeta.Labels (ConfigMap.ObjectMeta n)));
  n ← load h new;
  h ← assign h old (cm_set_Data (ConfigMap.Data n));
  n ← load h new;
  h ← assign h old (cm_set_BinaryData (ConfigMap.BinaryData n));
  Returns h.

Definition secret_set_Labels (l : option (gmap string string)) (s : Secret.t) :=
  {| Secret.TypeMeta := Secret.TypeMeta s;
     Secret.ObjectMeta := ObjectMeta.set_Labels l (Secret.ObjectMeta s);
     Secret.Immutable := Secret.Immutable s;
     Secret.Data := Secret.Data s;
     Secret.StringData := Secret.StringData s;
     Secret.Type' := Secret.Type' s |}.

Definition secret_set_Data (d : option (gmap string (list Byte.byte)))
    (s : Secret.t) :=
  {| Secret.TypeMeta := Secret.TypeMeta s;
     Secret.ObjectMeta := Secret.ObjectMeta s;
     Secret.Immutable := Secret.Immutable s;
     Secret.Data := d;
     Secret.StringData := Secret.StringData s;
     Secret.Type' := Secret.Type' s |}.

Definition secret_set_StringData (d : option (gmap string string))
    (s : Secret.t) :=
  {| Secret.TypeMeta := Secret.TypeMeta s;
     Secret.ObjectMeta := Secret.ObjectMeta s;
     Secret.Immutable := Secret.Immutable s;
     Secret.Data := Secret.Data s;
     Secret.StringData := d;
     Secret.Type' := Secret.Type' s |}.

Definition secret_set_Type (t : string) (s : Secret.t) :=
  {| Secret.TypeMeta := Secret.TypeMeta s;
     Secret.ObjectMeta := Secret.ObjectMeta s;
     Secret.Immutable := Secret.Immutable s;
     Secret.Data := Secret.Data s;
     Secret.StringData := Secret.StringData s;
     Secret.Type' := t |}.

Definition UpdateSecret (old new : ptr) (h : gmap positive Secret.t)
  : outcome (gmap positive Secret.t) :=
  n ← load h new;
  h ← assign h old (secret_set_Labels (ObjectMeta.Labels (Secret.ObjectMeta n)));
  n ← load h new;
  h ← assign h old (secret_set_Data (Secret.Data n));
  n ← load h new;
  h ← assign h old (secret_set_StringData (Secret.StringData n));
  n ← load h new;
  h ← assign h old (secret_set_Type (Secret.Type' n));
  Returns h.

(** *** The signal handler

    The package variables, the [stop] channel each call makes, and the
    place each started goroutine has reached in

      [<-shutdownHandler; close(stop); <-shutdownHandler; os.Exit(1)]. *)
















(** [CreateMergePatch]: both arguments are marshalled, and the merge patch
    between the two documents is returned as it comes. *)
Definition CreateMergePatch (original new : json.value) : outcome json.doc :=
  pvByte ← json.Marshal original;
  cloneByte ← json.Marshal new;
  patch ← jsonpatch.CreateMergePatch pvByte cloneByte;
  Returns patch.

End utils.

(** ** Package [manifest]: the clusterlink CRDs

    Each constant is a YAML document; it is kept as the tree a YAML reader
    makes of it, entries in the order of the text. *)

Inductive yaml : Type :=
| YNull
| YBool (b : bool)
| YStr (s : string)
| YSeq (items : list yaml)
| YMap (entries : list (string * yaml)).

Module manifest.

Definition ClusterlinkClusterNode : yaml :=
  YMap [
    ("apiVersion", YStr "apiextensions.k8s.io/v1");
    ("kind", YStr "CustomResourceDefinition");
    ("metadata", YMap [
      ("annotations", YMap [
        ("controller-gen.kubebuilder.io/version", YStr "v0.11.0")]);
      ("creationTimestamp", YNull);
      ("name", YStr "clusternodes.kosmos.io")]);
    ("spec", YMap [
      ("group", YStr "kosmos.io");
      ("names", YMap [
        ("kind", YStr "ClusterNode");
        ("listKind", YStr "ClusterNodeList");
        ("plural", YStr "clusternodes");
        ("singular", YStr "clusternode")]);
      ("scope", YStr "Cluster");
      ("versions", YSeq [
        YMap [
          ("additionalPrinterColumns", YSeq [
            YMap [
              ("jsonPath", YStr ".spec.roles");
              ("name", YStr "ROLES");
              ("type", YStr "string")];
            YMap [
              ("jsonPath", YStr ".spec.interfaceName");
              ("name", YStr "INTERFACE");
              ("type", YStr "string")];
            YMap [
              ("jsonPath", YStr ".spec.ip");
              ("name", YStr "IP");
              ("type", YStr "string")]]);
          ("name", YStr "v1alpha1");
          ("schema", YMap [
            ("openAPIV3Schema", YMap [
              ("properties", YMap [
                ("apiVersion", YMap [
                  ("description",
                     YStr "APIVersion defines the versioned schema of this representation of an object. Servers should convert recognized schemas to the latest internal value, and may reject unrecognized values. More info: https://git.k8s.io/community/contributors/devel/sig-architecture/api-conventions.md#resources");
                  ("type", YStr "string")]);
                ("kind", YMap [
                  ("description",
                     YStr "Kind is a string value representing the REST resource this object represents. Servers may infer this from the endpoint the client submits requests to. Cannot be updated. In CamelCase. More info: https://git.k8s.io/community/contributors/devel/sig-architecture/api-conventions.md#types-kinds");
                  ("type", YStr "string")]);
                ("metadata", YMap [
                  ("type", YStr "object")]);
                ("spec", YMap [
                  ("properties", YMap [
                    ("clusterName", YMap [
                      ("type", YStr "string")]);
                    ("interfaceName", YMap [
                      ("type", YStr "string")]);
                    ("ip", YMap [
                      ("type", YStr "string")]);
                    ("ip6", YMap [
                      ("type", YStr "string")]);
                    ("nodeName", YMap [
                      ("type", YStr "string")]);
                    ("podCIDRs", YMap [
                      ("items", YMap [
                        ("type", YStr "string")]);
                      ("type", YStr "array")]);
                    ("roles", YMap [
                      ("items", YMap [
                        ("type", YStr "string")]);
                      ("type", YStr "array")])]);
                  ("type", YStr "object")]);
                ("status", YMap [
                  ("type", YStr "object")])]);
              ("required", YSeq [YStr "spec"]);
              ("type", YStr "object")])]);
          ("served", YBool true);
          ("storage", YBool true);
          ("subresources", YMap [
            ("status", YMap [])])]])])].

Definition ClusterlinkCluster : yaml :=
  YMap [
    ("apiVersion", YStr "apiextensions.k8s.io/v1");
    ("kind", YStr "CustomResourceDefinition");
    ("metadata", YMap [
      ("annotations", YMap [
        ("controller-gen.kubebuilder.io/version", YStr "v0.11.0")]);
      ("creationTimestamp", YNull);
      ("name", YStr "clusters.kosmos.io")]);
    ("spec", YMap [
      ("group", YStr "kosmos.io");
      ("names", YMap [
        ("kind", YStr "Cluster");
        ("listKind", YStr "ClusterList");
        ("plural", YStr "clusters");
        ("singular", YStr "cluster")]);
      ("scope", YStr "Cluster");
      ("versions", YSeq [
        YMap [
          ("additionalPrinterColumns", YSeq [
            YMap [
              ("jsonPath", YStr ".spec.networkType");
              ("name", YStr "NETWORK_TYPE");
              ("type", YStr "string")];
            YMap [
              ("jsonPath", YStr ".spec.ipFamily");
              ("name", YStr "IP_FAMILY");
              ("type", YStr "string")]]);
          ("name", YStr "v1alpha1");
          ("schema", YMap [
            ("openAPIV3Schema", YMap [
              ("properties", YMap [
                ("apiVersion", YMap [
                  ("description",
                     YStr "APIVersion defines the versioned schema of this representation of an object. Servers should convert recognized schemas to the latest internal value, and may reject unrecognized values. More info: https://git.k8s.io/community/contributors/devel/sig-architecture/api-conventions.md#resources");
                  ("type", YStr "string")]);
                ("kind", YMap [
                  ("description",
                     YStr "Kind is a string value representing the REST resource this object represents. Servers may infer this from the endpoint the client submits requests to. Cannot be updated. In CamelCase. More info: https://git.k8s.io/community/contributors/devel/sig-architecture/api-conventions.md#types-kinds");
                  ("type", YStr "string")]);
                ("metadata", YMap [
                  ("type", YStr "object")]);
                ("spec", YMap [
                  ("description",
                     YStr "Spec is the specification for the behaviour of the cluster.");
                  ("properties", YMap [
                    ("bridgeCIDRs", YMap [
                      ("default", YMap [
                        ("ip", YStr "220.0.0.0/8");
                        ("ip6", YStr "9470::/16")]);
                      ("properties", YMap [
                        ("ip", YMap [
                          ("type", YStr "string")]);
                        ("ip6", YMap [
                          ("type", YStr "string")])]);
                      ("required", YSeq [YStr "ip"; YStr "ip6"]);
                      ("type", YStr "object")]);
                    ("cni", YMap [
                      ("default", YStr "calico");
                      ("type", YStr "string")]);
                    ("defaultNICName", YMap [
                      ("default", YStr "*");
                      ("type", YStr "string")]);
                    ("globalCIDRsMap", YMap [
                      ("additionalProperties", YMap [
                        ("type", YStr "string")]);
                      ("type", YStr "object")]);
                    ("imageRepository", YMap [
                      ("type", YStr "string")]);
                    ("ipFamily", YMap [
                      ("default", YStr "all");
                      ("type", YStr "string")]);
                    ("kubeconfig", YMap [
                      ("format", YStr "byte");
                      ("type", YStr "string")]);
                    ("localCIDRs", YMap [
                      ("default", YMap [
                        ("ip", YStr "210.0.0.0/8");
                        ("ip6", YStr "9480::/16")]);
                      ("properties", YMap [
                        ("ip", YMap [
                          ("type", YStr "string")]);
                        ("ip6", YMap [
                          ("type", YStr "string")])]);
                      ("required", YSeq [YStr "ip"; YStr "ip6"]);
                      ("type", YStr "object")]);
                    ("namespace", YMap [
                      ("default", YStr "clusterlink-system");
                      ("type", YStr "string")]);
                    ("networkType", YMap [
                      ("default", YStr "p2p");
                      ("enum", YSeq [YStr "p2p"; YStr "gateway"]);
                      ("type", YStr "string")]);
                    ("nicNodeNames", YMap [
                      ("items", YMap [
                        ("properties", YMap [
                          ("interfaceName", YMap [
                            ("type", YStr "string")]);
                          ("nodeName", YMap [
                            ("items", YMap [
                              ("type", YStr "string")]);
                            ("type", YStr "array")])]);
                        ("required", YSeq [YStr "interfaceName"; YStr "nodeName"]);
                        ("type", YStr "object")]);
                      ("type", YStr "array")]);
                    ("useIPPool", YMap [
                      ("default", YBool false);
                      ("type", YStr "boolean")])]);
                  ("type", YStr "object")]);
                ("status", YMap [
                  ("description",
                     YStr "Status describes the current status of a cluster.");
                  ("properties", YMap [
                    ("podCIDRs", YMap [
                      ("items", YMap [
                        ("type", YStr "string")]);
                      ("type", YStr "array")]);
                    ("serviceCIDRs", YMap [
                      ("items", YMap [
                        ("type", YStr "string")]);
                      ("type", YStr "array")])]);
                  ("type", YStr "object")])]);
              ("required", YSeq [YStr "spec"]);
              ("type", YStr "object")])]);
          ("served", YBool true);
          ("storage", YBool true);
          ("subresources", YMap [])]])])].

Definition ClusterlinkNodeConfig : yaml :=
  YMap [
    ("apiVersion", YStr "apiextensions.k8s.io/v1");
    ("kind", YStr "CustomResourceDefinition");
    ("metadata", YMap [
      ("annotations", YMap [
        ("controller-gen.kubebuilder.io/version", YStr "v0.11.0")]);
      ("creationTimestamp", YNull);
      ("name", YStr "nodeconfigs.kosmos.io")]);
    ("spec", YMap [
      ("group", YStr "kosmos.io");
      ("names", YMap [
        ("kind", YStr "NodeConfig");
        ("listKind", YStr "NodeConfigList");
        ("plural", YStr "nodeconfigs");
        ("singular", YStr "nodeconfig")]);
      ("scope", YStr "Cluster");
      ("versions", YSeq [
        YMap [
          ("name", YStr "v1alpha1");
          ("schema", YMap [
            ("openAPIV3Schema", YMap [
              ("properties", YMap [
                ("apiVersion", YMap [
                  ("description",
                     YStr "APIVersion defines the versioned schema of this representation of an object. Servers should convert recognized schemas to the latest internal value, and may reject unrecognized values. More info: https://git.k8s.io/community/contributors/devel/sig-architecture/api-conventions.md#resources");
                  ("type", YStr "string")]);
                ("kind", YMap [
                  ("description",
                     YStr "Kind is a string value representing the REST resource this object represents. Servers may infer this from the endpoint the client submits requests to. Cannot be updated. In CamelCase. More info: https://git.k8s.io/community/contributors/devel/sig-architecture/api-conventions.md#types-kinds");
                  ("type", YStr "string")]);
                ("metadata", YMap [
                  ("type", YStr "object")]);
                ("spec", YMap [
                  ("properties", YMap [
                    ("arps", YMap [
                      ("items", YMap [
                        ("properties", YMap [
                          ("dev", YMap [
                            ("type", YStr "string")]);
                          ("ip", YMap [
                            ("type", YStr "string")]);
                          ("mac", YMap [
                            ("type", YStr "string")])]);
                        ("required", YSeq [YStr "dev"; YStr "ip"; YStr "mac"]);
                        ("type", YStr "object")]);
                      ("type", YStr "array")]);
                    ("devices", YMap [
                      ("items", YMap [
                        ("properties", YMap [
                          ("addr", YMap [
                            ("type", YStr "string")]);
                          ("bindDev", YMap [
                            ("type", YStr "string")]);
                          ("id", YMap [
                            ("format", YStr "int32");
                            ("type", YStr "integer")]);
                          ("mac", YMap [
                            ("type", YStr "string")]);
                          ("name", YMap [
                            ("type", YStr "string")]);
                          ("port", YMap [
                            ("format", YStr "int32");
                            ("type", YStr "integer")]);
                          ("type", YMap [
                            ("type", YStr "string")])]);
                        ("required", YSeq [YStr "addr"; YStr "bindDev"; YStr "id"; YStr "mac"; YStr "name"; YStr "port"; YStr "type"]);
                        ("type", YStr "object")]);
                      ("type", YStr "array")]);
                    ("fdbs", YMap [
                      ("items", YMap [
                        ("properties", YMap [
                          ("dev", YMap [
                            ("type", YStr "string")]);
                          ("ip", YMap [
                            ("type", YStr "string")]);
                          ("mac", YMap [
                            ("type", YStr "string")])]);
                        ("required", YSeq [YStr "dev"; YStr "ip"; YStr "mac"]);
                        ("type", YStr "object")]);
                      ("type", YStr "array")]);
                    ("iptables", YMap [
                      ("items", YMap [
                        ("properties", YMap [
                          ("chain", YMap [
                            ("type", YStr "string")]);
                          ("rule", YMap [
                            ("type", YStr "string")]);
                          ("table", YMap [
                            ("type", YStr "string")])]);
                        ("required", YSeq [YStr "chain"; YStr "rule"; YStr "table"]);
                        ("type", YStr "object")]);
                      ("type", YStr "array")]);
                    ("routes", YMap [
                      ("items", YMap [
                        ("properties", YMap [
                          ("cidr", YMap [
                            ("type", YStr "string")]);
                          ("dev", YMap [
                            ("type", YStr "string")]);
                          ("gw", YMap [
                            ("type", YStr "string")])]);
                        ("required", YSeq [YStr "cidr"; YStr "dev"; YStr "gw"]);
                        ("type", YStr "object")]);
                      ("type", YStr "array")])]);
                  ("type", YStr "object")]);
                ("status", YMap [
                  ("properties", YMap [
                    ("lastChangeTime", YMap [
                      ("format", YStr "date-time");
                      ("type", YStr "string")]);
                    ("lastSyncTime", YMap [
                      ("format", YStr "date-time");
                      ("type", YStr "string")])]);
                  ("type", YStr "object")])]);
              ("required", YSeq [YStr "spec"]);
              ("type", YStr "object")])]);
          ("served", YBool true);
          ("storage", YBool true);
          ("subresources", YMap [
            ("status", YMap [])])]])])].

End manifest.

(** ** Reading a CRD: the keywords of its OpenAPI v3 schema *)

Module openapi.

Definition get (key : string) (y : yaml) : option yaml :=
  match y with
  | YMap entries => json.index entries key
  | _ => None
  end.

Definition path (keys : list string) (y : yaml) : option yaml :=
  foldl (fun o key => o ≫= get key) (Some y) keys.

Definition keys (y : yaml) : list string :=
  match y with
  | YMap entries => fst <$> entries
  | _ => []
  end.

Definition strings (y : yaml) : list string :=
  match y with
  | YSeq items =>
      omap (fun i => match i with YStr s => Some s | _ => None end) items
  | _ => []
  end.

(** The schema of a CRD that serves one version. *)
Definition openAPIV3Schema (crd : yaml) : option yaml :=
  versions ← path ["spec"; "versions"] crd;
  match versions with
  | YSeq [version] => path ["schema"; "openAPIV3Schema"] version
  | _ => None
  end.

Definition property (name : string) (schema : yaml) : option yaml :=
  path ["properties"; name] schema.

Definition property_names (schema : yaml) : list string :=
  from_option keys [] (get "properties" schema).

Definition required (schema : yaml) : list string :=
  from_option strings [] (get "required" schema).

Definition enum (schema : yaml) : option (list string) :=
  strings <$> get "enum" schema.

Definition type_is (t : string) (schema : yaml) : Prop :=
  get "type" schema = Some (YStr t).

(** [type: string] with an optional [enum]: the strings a field of this
    schema may hold. *)
Definition admits_string (schema : yaml) (s : string) : bool :=
  match get "type" schema with
  | Some (YStr t) => String.eqb t "string"
  | _ => false
  end &&
  match enum schema with
  | Some values => bool_decide (s ∈ values)
  | None => true
  end.

(** [default]: what is stored for a field that the object leaves out. *)
Definition defaulted (schema : yaml) (given : option yaml) : option yaml :=
  match given with
  | Some v => Some v
  | None => get "default" schema
  end.

(** [required]: the required properties that an object lacks. *)
Definition missing (schema : yaml) (object : yaml) : list string :=
  filter (fun key => get key object = None) (required schema).

End openapi.

(** ** What the statements below speak about *)

(** The label [key] of a node, if it has one. *)
Definition node_label (n : Node.t) (key : string) : option string :=
  ObjectMeta.Labels (Node.ObjectMeta n) ≫= (.!! key).

(** Two [ObjectMeta]s that differ at most in their labels. *)
Definition same_but_Labels (m m' : ObjectMeta.t) : Prop :=
  ObjectMeta.Name m' = ObjectMeta.Name m ∧
  ObjectMeta.GenerateName m' = ObjectMeta.GenerateName m ∧
  ObjectMeta.Namespace m' = ObjectMeta.Namespace m ∧
  ObjectMeta.UID m' = ObjectMeta.UID m ∧
  ObjectMeta.ResourceVersion m' = ObjectMeta.ResourceVersion m ∧
  ObjectMeta.Generation m' = ObjectMeta.Generation m ∧
  ObjectMeta.Annotations m' = ObjectMeta.Annotations m ∧
  ObjectMeta.OwnerReferences m' = ObjectMeta.OwnerReferences m ∧
  ObjectMeta.Finalizers m' = ObjectMeta.Finalizers m.

(** [o'] is [o] with the labels, data and binary data of [n]. *)
Definition ConfigMap_updated (o n o' : ConfigMap.t) : Prop :=
  ObjectMeta.Labels (ConfigMap.ObjectMeta o')
    = ObjectMeta.Labels (ConfigMap.ObjectMeta n) ∧
  ConfigMap.Data o' = ConfigMap.Data n ∧
  ConfigMap.BinaryData o' = ConfigMap.BinaryData n ∧
  ConfigMap.TypeMeta o' = ConfigMap.TypeMeta o ∧
  ConfigMap.Immutable o' = ConfigMap.Immutable o ∧
  same_but_Labels (ConfigMap.ObjectMeta o) (ConfigMap.ObjectMeta o').

(** [o'] is [o] with the labels, data, string data and type of [n]. *)
Definition Secret_updated (o n o' : Secret.t) : Prop :=
  ObjectMeta.Labels (Secret.ObjectMeta o')
    = ObjectMeta.Labels (Secret.ObjectMeta n) ∧
  Secret.Data o' = Secret.Data n ∧
  Secret.StringData o' = Secret.StringData n ∧
  Secret.Type' o' = Secret.Type' n ∧
  Secret.TypeMeta o' = Secret.TypeMeta o ∧
  Secret.Immutable o' = Secret.Immutable o ∧
  same_but_Labels (Secret.ObjectMeta o) (Secret.ObjectMeta o').

(** The names one volume asks for, by the kind of its source. *)
Definition volume_secret (v : Volume.t) : list string :=
  match Volume.Secret v, Volume.CephFS v, Volume.Cinder v, Volume.RBD v with
  | Some s, _, _, _ =>
      if String.prefix "default-token" (Volume.Name v) then []
      else [SecretVolumeSource.SecretName s]
  | None, Some c, _, _ =>
      LocalObjectReference.Name <$> option_list (CephFSVolumeSource.SecretRef c)
  | None, None, Some c, _ =>
      LocalObjectReference.Name <$> option_list (CinderVolumeSource.SecretRef c)
  | None, None, None, Some c =>
      LocalObjectReference.Name <$> option_list (RBDVolumeSource.SecretRef c)
  | None, None, None, None => []
  end.

(** The CephFS, Cinder or RBD source that decides for [v] names its secret. *)
Definition secretRef_set (v : Volume.t) : Prop :=
  match Volume.Secret v, Volume.CephFS v, Volume.Cinder v, Volume.RBD v with
  | Some _, _, _, _ => True
  | None, Some c, _, _ => is_Some (CephFSVolumeSource.SecretRef c)
  | None, None, Some c, _ => is_Some (CinderVolumeSource.SecretRef c)
  | None, None, None, Some c => is_Some (RBDVolumeSource.SecretRef c)
  | None, None, None, None => True
  end.

Definition volume_configmap (v : Volume.t) : list string :=
  ConfigMapVolumeSource.Name <$> option_list (Volume.ConfigMap v).

Definition volume_pvc (v : Volume.t) : list string :=
  PersistentVolumeClaimVolumeSource.ClaimName
    <$> option_list (Volume.PersistentVolumeClaim v).

Definition pod_volumes (p : Pod.t) : list Volume.t :=
  elems (PodSpec.Volumes (Pod.Spec p)).

(** A pod with one CephFS volume that names no secret (the cluster is
    reached with a key file). *)
Definition cephfs_volume_without_secret : Volume.t :=
  {| Volume.Name := "data";
     Volume.Secret := None;
     Volume.CephFS :=
       Some {| CephFSVolumeSource.Monitors := ["10.0.0.1:6789"];
               CephFSVolumeSource.Path := "/";
               CephFSVolumeSource.User := "admin";
               CephFSVolumeSource.SecretFile := "/etc/ceph/admin.secret";
               CephFSVolumeSource.SecretRef := None;
               CephFSVolumeSource.ReadOnly := false |};
     Volume.Cinder := None; Volume.RBD := None; Volume.ConfigMap := None;
     Volume.PersistentVolumeClaim := None |}.

Definition meta_named (name : string) : ObjectMeta.t :=
  {| ObjectMeta.Name := name; ObjectMeta.GenerateName := "";
     ObjectMeta.Namespace := "default"; ObjectMeta.UID := "";
     ObjectMeta.ResourceVersion := ""; ObjectMeta.Generation := 0;
     ObjectMeta.Labels := None; ObjectMeta.Annotations := None;
     ObjectMeta.OwnerReferences := None; ObjectMeta.Finalizers := None |}.

Definition pod_with (vs : list Volume.t) (pull : option (list LocalObjectReference.t))
  : Pod.t :=
  {| Pod.ObjectMeta := meta_named "web";
     Pod.Spec := {| PodSpec.Volumes := Some vs;
                    PodSpec.ImagePullSecrets := pull;
                    PodSpec.NodeName := "" |} |}.

(** A pod to try the helpers on. *)
Definition registry_secret : LocalObjectReference.t :=
  {| LocalObjectReference.Name := "registry" |}.

Definition sample_volumes : list Volume.t :=
  [ {| Volume.Name := "default-token-x7k2p";
       Volume.Secret := Some {| SecretVolumeSource.SecretName := "default-token-x7k2p";
                                SecretVolumeSource.Optional := None |};
       Volume.CephFS := None; Volume.Cinder := None; Volume.RBD := None;
       Volume.ConfigMap := None; Volume.PersistentVolumeClaim := None |};
    {| Volume.Name := "tls";
       Volume.Secret := Some {| SecretVolumeSource.SecretName := "web-tls";
                                SecretVolumeSource.Optional := None |};
       Volume.CephFS := None; Volume.Cinder := None; Volume.RBD := None;
       Volume.ConfigMap := None; Volume.PersistentVolumeClaim := None |};
    {| Volume.Name := "disk";
       Volume.Secret := None; Volume.CephFS := None;
       Volume.Cinder := Some {| CinderVolumeSource.VolumeID := "vol-1";
                                CinderVolumeSource.FSType := "ext4";
                                CinderVolumeSource.ReadOnly := false;
                                CinderVolumeSource.SecretRef :=
                                  Some {| LocalObjectReference.Name := "cinder-key" |} |};
       Volume.RBD := None; Volume.ConfigMap := None;
       Volume.PersistentVolumeClaim := None |};
    {| Volume.Name := "settings";
       Volume.Secret := None; Volume.CephFS := None; Volume.Cinder := None;
       Volume.RBD := None;
       Volume.ConfigMap := Some {| ConfigMapVolumeSource.Name := "web-settings";
                                   ConfigMapVolumeSource.Optional := None |};
       Volume.PersistentVolumeClaim := None |} ].

(** The object [UpdateConfigMap] leaves behind [old]. *)
Definition ConfigMap_after (o n : ConfigMap.t) : ConfigMap.t :=
  utils.cm_set_BinaryData (ConfigMap.BinaryData n)
    (utils.cm_set_Data (ConfigMap.Data n)
       (utils.cm_set_Labels (ObjectMeta.Labels (ConfigMap.ObjectMeta n)) o)).

Definition Secret_after (o n : Secret.t) : Secret.t :=
  utils.secret_set_Type (Secret.Type' n)
    (utils.secret_set_StringData (Secret.StringData n)
       (utils.secret_set_Data (Secret.Data n)
          (utils.secret_set_Labels (ObjectMeta.Labels (Secret.ObjectMeta n)) o))).

(** The schema of [spec] and of [status] in a CRD. *)
Definition spec_schema (crd : yaml) : option yaml :=
  openapi.openAPIV3Schema crd ≫= openapi.property "spec".

Definition status_schema (crd : yaml) : option yaml :=
  openapi.openAPIV3Schema crd ≫= openapi.property "status".

(** [fields] are the properties of [schema], and all of them are required. *)
Definition has_exactly_fields (schema : yaml) (fields : list string) : Prop :=
  openapi.type_is "object" schema
  ∧ openapi.property_names schema ≡ₚ fields
  ∧ openapi.required schema ≡ₚ fields.

(** The property [name] of [schema] is a list of entries with [fields]. *)
Definition is_list_of (schema : yaml) (name : string) (fields : list string)
  : Prop :=
  ∃ list entry,
    openapi.property name schema = Some list
    ∧ openapi.type_is "array" list
    ∧ openapi.get "items" list = Some entry
    ∧ has_exactly_fields entry fields.

(** The property [name] of [schema] is a date and time. *)
Definition is_date_time (schema : yaml) (name : string) : Prop :=
  ∃ field,
    openapi.property name schema = Some field
    ∧ openapi.type_is "string" field
    ∧ openapi.get "format" field = Some (YStr "date-time").

(** An [ip]/[ip6] pair. *)
Definition cidr_pair (ip ip6 : string) : yaml :=
  YMap [("ip", YStr ip); ("ip6", YStr ip6)].

(** Two ConfigMaps behind the pointers 1 and 2. *)
Definition configmap_old : ConfigMap.t :=
  {| ConfigMap.TypeMeta := {| TypeMeta.Kind := "ConfigMap"; TypeMeta.APIVersion := "v1" |};
     ConfigMap.ObjectMeta := meta_named "settings";
     ConfigMap.Immutable := None;
     ConfigMap.Data := Some {[ "mode" := "p2p" ]};
     ConfigMap.BinaryData := None |}.

Definition configmap_new : ConfigMap.t :=
  {| ConfigMap.TypeMeta := {| TypeMeta.Kind := "ConfigMap"; TypeMeta.APIVersion := "v1" |};
     ConfigMap.ObjectMeta :=
       ObjectMeta.set_Labels (Some {[ "app" := "clusterlink" ]}) (meta_named "settings-copy");
     ConfigMap.Immutable := None;
     ConfigMap.Data := Some {[ "mode" := "gateway" ]};
     ConfigMap.BinaryData := None |}.

Definition sample_configmaps : gmap positive ConfigMap.t :=
  <[2%positive := configmap_new]> {[ 1%positive := configmap_old ]}.

(** A NodeConfig with one device (of id 108, that is 7599824371187712 times
    2 to the -46) and one route, as the value handed to [CreateMergePatch],
    and the document [Marshal] makes of it. *)
Definition sample_nodeconfig : json.value :=
  json.VMap
    [("kind", json.VString "NodeConfig");
     ("spec",
      json.VMap
        [("routes",
          json.VSlice
            [json.VMap [("cidr", json.VString "10.2.0.0/16");
                        ("dev", json.VString "vx-bridge");
                        ("gw", json.VString "220.0.0.2")]]);
         ("devices",
          json.VSlice
            [json.VMap [("name", json.VString "vx-bridge");
                        ("id", json.VFloat64 (S754_finite false 7599824371187712 (-46)))]])])].

Definition sample_nodeconfig_doc : json.doc :=
  json.JObject
    [("kind", json.JString "NodeConfig");
     ("spec",
      json.JObject
        [("devices",
          json.JArray
            [json.JObject [("id", json.JNumber (S754_finite false 7599824371187712 (-46)));
                           ("name", json.JString "vx-bridge")]]);
         ("routes",
          json.JArray
            [json.JObject [("cidr", json.JString "10.2.0.0/16");
                           ("dev", json.JString "vx-bridge");
                           ("gw", json.JString "220.0.0.2")]])])].



(** A document all of whose numbers fit a [float64]. *)
Inductive fits_float64 : json.doc → Prop :=
| ok_null : fits_float64 json.JNull
| ok_bool b : fits_float64 (json.JBool b)
| ok_number f : json.is_finite f = true → fits_float64 (json.JNumber f)
| ok_string s : fits_float64 (json.JString s)
| ok_array items : Forall fits_float64 items → fits_float64 (json.JArray items)
| ok_object members : Forall (fun e => fits_float64 e.2) members → fits_float64 (json.JObject members).

(** A value as [Unmarshal] makes them: finite numbers, maps with distinct
    keys, nothing that has no JSON reading. *)
Inductive decoded : json.value → Prop :=
| decoded_nil : decoded json.VNil
| decoded_bool b : decoded (json.VBool b)
| decoded_float64 f : json.is_finite f = true → decoded (json.VFloat64 f)
| decoded_string s : decoded (json.VString s)
| decoded_slice items : Forall decoded items → decoded (json.VSlice items)
| decoded_map entries :
    NoDup entries.*1 → Forall (fun e => decoded e.2) entries →
    decoded (json.VMap entries).

(** ** What the further statements speak about *)

(** The label [key] of a pod, if it has one. *)
Definition pod_label (p : Pod.t) (key : string) : option string :=
  ObjectMeta.Labels (Pod.ObjectMeta p) ≫= (.!! key).

(** The conditions a node reports, and the ones that say it is ready. *)
Definition node_conditions (n : node_with_status) : list NodeCondition.t :=
  elems (NodeStatus.Conditions n.2).

Definition ready_condition (c : NodeCondition.t) : Prop :=
  NodeCondition.Type' c = "Ready" ∧ NodeCondition.Status c = "True".

Global Instance ready_condition_dec (c : NodeCondition.t) :
  Decision (ready_condition c).
Proof. unfold ready_condition. apply _. Defined.

(** How often the byte [sep] occurs in [s]. *)
Fixpoint count_byte (sep : Ascii.ascii) (s : string) : nat :=
  match s with
  | EmptyString => 0
  | String c s' => (if Ascii.eqb c sep then 1 else 0) + count_byte sep s'
  end.

(** A label text [key:val]. *)
Definition label_text (key val : string) : string :=
  key +:+ String ":"%char val.

(** A node to try the label helpers on, and a trimming of blanks at both
    ends only, which is what [strings.TrimSpace] does to texts of letters,
    digits and blanks. *)
Definition sample_node : Node.t :=
  {| Node.ObjectMeta :=
       ObjectMeta.set_Labels (Some {[ "kubernetes.io/hostname" := "worker-1" ]})
         (meta_named "worker-1");
     Node.PodCIDR := "10.1.0.0/24" |}.

Definition sample_node_without_labels : Node.t :=
  {| Node.ObjectMeta := meta_named "worker-2"; Node.PodCIDR := "10.1.1.0/24" |}.

Fixpoint trim_left (s : string) : string :=
  match s with
  | String " "%char s' => trim_left s'
  | _ => s
  end.

Definition trim_blanks (s : string) : string :=
  String.rev (trim_left (String.rev (trim_left s))).

(** A pointer that is nil or has its object in the store. *)
Definition nil_or_object {A} (h : gmap positive A) (p : ptr) : Prop :=
  ∀ l, p = Some l → is_Some (h !! l).

(** A store with one Secret. *)
Definition sample_secrets : gmap positive Secret.t :=
  {[ 1%positive :=
       {| Secret.TypeMeta := {| TypeMeta.Kind := "Secret"; TypeMeta.APIVersion := "v1" |};
          Secret.ObjectMeta := meta_named "controlpanel-config";
          Secret.Immutable := None;
          Secret.Data := None;
          Secret.StringData := Some {[ "kubeconfig" := "apiVersion: v1" ]};
          Secret.Type' := "Opaque" |} ]}.





(** What a CRD says about itself: its name, the name its plural and group
    make, and the paths of its printer columns. *)
Definition scalar (y : option yaml) : option string :=
  match y with
  | Some (YStr s) => Some s
  | _ => None
  end.

Definition crd_name (crd : yaml) : option string :=
  scalar (openapi.path ["metadata"; "name"] crd).

Definition crd_plural_group (crd : yaml) : option string :=
  plural ← scalar (openapi.path ["spec"; "names"; "plural"] crd);
  group ← scalar (openapi.path ["spec"; "group"] crd);
  Some (plural +:+ "." +:+ group).

Definition crd_versions (crd : yaml) : list yaml :=
  match openapi.path ["spec"; "versions"] crd with
  | Some (YSeq versions) => versions
  | _ => []
  end.

Definition printer_paths (version : yaml) : list string :=
  match openapi.get "additionalPrinterColumns" version with
  | Some (YSeq columns) => omap (fun c => scalar (openapi.get "jsonPath" c)) columns
  | _ => []
  end.

(** A path [.a.b] names the property [b] of the property [a]. *)
Definition resolves (schema : yaml) (jsonPath : string) : bool :=
  match Split jsonPath "."%char with
  | "" :: names =>
      match foldl (fun o name => o ≫= openapi.property name) (Some schema) names with
      | Some _ => true
      | None => false
      end
  | _ => false
  end.

(** What the API server asks of a CRD and what the printer columns rely on:
    the name is plural.group, the scope is Cluster, one version v1alpha1 is
    served and stored, its schema requires [spec], and every printer column
    reads a declared property. *)
Definition crd_consistent (crd : yaml) : Prop :=
  is_Some (crd_name crd)
  ∧ crd_name crd = crd_plural_group crd
  ∧ scalar (openapi.path ["spec"; "scope"] crd) = Some "Cluster"
  ∧ ∃ version schema,
      crd_versions crd = [version]
      ∧ openapi.get "name" version = Some (YStr "v1alpha1")
      ∧ openapi.get "served" version = Some (YBool true)
      ∧ openapi.get "storage" version = Some (YBool true)
      ∧ openapi.openAPIV3Schema crd = Some schema
      ∧ openapi.required schema = ["spec"]
      ∧ forallb (resolves schema) (printer_paths version) = true.

(** ** Proof tools *)

(** Decidable facts about the manifests are settled by evaluation. *)
Ltac by_computation := apply (bool_decide_unpack _); vm_compute; exact I.

Ltac list_shown :=
  eexists _, _; split; [reflexivity |]; split; [reflexivity |];
  split; [reflexivity |]; split; [reflexivity |]; split; by_computation.

(** * Properties *)

(** ** Pod dependencies (help.go) *)

Lemma getConfigmaps_volumes_spec (vs : list Volume.t) (acc : list string) :
  k8sadapter.getConfigmaps_volumes vs (Some acc)
  = Some (acc ++ vs ≫= volume_configmap).
Proof.
  revert acc. induction vs as [|v vs IH]; intros acc; simpl.
  - by rewrite app_nil_r.
  - unfold volume_configmap at 1. destruct (Volume.ConfigMap v) as [c|]; simpl.
    + unfold append. simpl. rewrite IH. by rewrite <- app_assoc.
    + apply IH.
Qed.

Lemma getPVCs_volumes_spec (vs : list Volume.t) (acc : list string) :
  k8sadapter.getPVCs_volumes vs (Some acc)
  = Some (acc ++ vs ≫= volume_pvc).
Proof.
  revert acc. induction vs as [|v vs IH]; intros acc; simpl.
  - by rewrite app_nil_r.
  - unfold volume_pvc at 1.
    destruct (Volume.PersistentVolumeClaim v) as [c|]; simpl.
    + unfold append. simpl. rewrite IH. by rewrite <- app_assoc.
    + apply IH.
Qed.

Lemma getSecrets_volume_spec (v : Volume.t) (acc : list string) :
  secretRef_set v →
  k8sadapter.getSecrets_volume v (Some acc) = Returns (Some (acc ++ volume_secret v)).
Proof.
  unfold secretRef_set, k8sadapter.getSecrets_volume, volume_secret.
  destruct (Volume.Secret v) as [s|].
  { intros _. destruct (String.prefix _ _); simpl; [by rewrite app_nil_r | done]. }
  destruct (Volume.CephFS v) as [c|].
  { intros [r ->]. done. }
  destruct (Volume.Cinder v) as [c|].
  { intros [r ->]. done. }
  destruct (Volume.RBD v) as [c|].
  { intros [r ->]. done. }
  intros _. by rewrite app_nil_r.
Qed.

Lemma getSecrets_volumes_spec (vs : list Volume.t) (acc : list string) :
  Forall secretRef_set vs →
  k8sadapter.getSecrets_volumes vs (Some acc)
  = Returns (Some (acc ++ vs ≫= volume_secret)).
Proof.
  intros Hvs. revert acc.
  induction Hvs as [|v vs Hv _ IH]; intros acc; simpl.
  - by rewrite app_nil_r.
  - rewrite (getSecrets_volume_spec v acc Hv). simpl.
    rewrite IH. by rewrite <- app_assoc.
Qed.

Lemma append_names_spec (ss : list LocalObjectReference.t) (acc : list string) :
  foldl (fun names s => append names (LocalObjectReference.Name s)) (Some acc) ss
  = Some (acc ++ (LocalObjectReference.Name <$> ss)).
Proof.
  revert acc. induction ss as [|s ss IH]; intros acc; simpl.
  - by rewrite app_nil_r.
  - unfold append at 2. simpl. rewrite IH. by rewrite <- app_assoc.
Qed.

(** X1: [getConfigmaps] returns, in the order of the volumes, the ConfigMap name
    of every volume that has a ConfigMap source, and nothing else. *)
Theorem getConfigmaps_spec (p : Pod.t) :
  k8sadapter.getConfigmaps (Some p)
  = Returns (Some (pod_volumes p ≫= volume_configmap)).
Proof.
  unfold k8sadapter.getConfigmaps. simpl.
  by rewrite getConfigmaps_volumes_spec.
Qed.

(** X2: [getPVCs] returns, in the order of the volumes, the claim name of every
    volume that has a PersistentVolumeClaim source, and nothing else. *)
Theorem getPVCs_spec (p : Pod.t) :
  k8sadapter.getPVCs (Some p) = Returns (Some (pod_volumes p ≫= volume_pvc)).
Proof.
  unfold k8sadapter.getPVCs. simpl. by rewrite getPVCs_volumes_spec.
Qed.

(** X3: on a pod whose CephFS, Cinder and RBD volumes name their secret,
    [getSecrets] returns the secret of every volume (none for a secret volume
    whose name starts with default-token), then the image pull secrets. *)
Theorem getSecrets_spec (p : Pod.t) :
  Forall secretRef_set (pod_volumes p) →
  k8sadapter.getSecrets (Some p)
  = Returns (Some ((pod_volumes p ≫= volume_secret)
                   ++ (LocalObjectReference.Name
                         <$> elems (PodSpec.ImagePullSecrets (Pod.Spec p))))).
Proof.
  intros Hvs. unfold k8sadapter.getSecrets. simpl.
  fold (pod_volumes p). rewrite (getSecrets_volumes_spec _ [] Hvs). simpl.
  destruct (PodSpec.ImagePullSecrets (Pod.Spec p)) as [ss|]; simpl.
  - by rewrite append_names_spec.
  - by rewrite app_nil_r.
Qed.

Lemma sample_volumes_secretRef_set : Forall secretRef_set sample_volumes.
Proof. repeat (constructor; [by (vm_compute; eauto) |]). constructor. Qed.

Lemma getSecrets_spec_witness :
  Forall secretRef_set (pod_volumes (pod_with sample_volumes (Some [registry_secret])))
  ∧ k8sadapter.getSecrets (Some (pod_with sample_volumes (Some [registry_secret])))
    = Returns (Some ["web-tls"; "cinder-key"; "registry"]).
Proof.
  split; [exact sample_volumes_secretRef_set |].
  apply (getSecrets_spec (pod_with sample_volumes (Some [registry_secret]))).
  exact sample_volumes_secretRef_set.
Defined.

(** C8, at the pod with one CephFS volume that names no secret: [getSecrets]
    does not return the names the pod depends on (here none), it panics on
    the nil [SecretRef]; the two other helpers return their lists. *)
Theorem getSecrets_panics_without_secretRef :
  k8sadapter.getSecrets (Some (pod_with [cephfs_volume_without_secret] None))
    = Panics nil_dereference
  ∧ k8sadapter.getConfigmaps (Some (pod_with [cephfs_volume_without_secret] None))
    = Returns (Some [])
  ∧ k8sadapter.getPVCs (Some (pod_with [cephfs_volume_without_secret] None))
    = Returns (Some []).
Proof. repeat split; reflexivity. Qed.

(** ** Nodes, ConfigMaps and Secrets (package utils) *)

Lemma map_index_lookup (m : option (gmap string string)) (key : string) :
  map_index m key = match m ≫= (.!! key) with
                    | Some v => (v, true)
                    | None => ("", false)
                    end.
Proof. destruct m as [g|]; simpl; [by destruct (g !! key) | done]. Qed.

Lemma IsVirtualNode_eq (n : Node.t) :
  utils.IsVirtualNode (Some n)
  = Returns (match node_label n utils.NodeType with
             | Some v => String.eqb v utils.KosmosKubeletLabel
             | None => false
             end).
Proof.
  unfold utils.IsVirtualNode, node_label. simpl. rewrite map_index_lookup.
  by destruct (ObjectMeta.Labels (Node.ObjectMeta n) ≫= _).
Qed.

Lemma GetClusterID_eq (n : Node.t) :
  utils.GetClusterID (Some n)
  = Returns (default "" (node_label n utils.ClusterID)).
Proof.
  unfold utils.GetClusterID, node_label. simpl. rewrite map_index_lookup.
  by destruct (ObjectMeta.Labels (Node.ObjectMeta n) ≫= _).
Qed.

(** C9: [IsVirtualNode] answers false on the nil node, on a node without the
    type label and on a node whose type label is not kosmos-kubelet;
    [GetClusterID] answers the empty string on the nil node and on a node
    without the clusterID label; and both return on every input. *)
Theorem node_helpers_total :
  utils.IsVirtualNode None = Returns false
  ∧ utils.GetClusterID None = Returns ""
  ∧ (∀ n : Node.t,
       (node_label n "type" = None → utils.IsVirtualNode (Some n) = Returns false)
       ∧ (∀ v, node_label n "type" = Some v → v ≠ "kosmos-kubelet" →
               utils.IsVirtualNode (Some n) = Returns false)
       ∧ (node_label n "clusterID" = None → utils.GetClusterID (Some n) = Returns ""))
  ∧ (∀ node : option Node.t,
       (∃ b, utils.IsVirtualNode node = Returns b)
       ∧ (∃ s, utils.GetClusterID node = Returns s)).
Proof.
  split; [done |]. split; [done |]. split.
  - intros n. rewrite IsVirtualNode_eq, GetClusterID_eq.
    change utils.NodeType with "type". change utils.ClusterID with "clusterID".
    split; [by intros -> |]. split; [| by intros ->].
    intros v -> Hv. f_equal. apply String.eqb_neq. exact Hv.
  - intros [n|].
    + rewrite IsVirtualNode_eq, GetClusterID_eq. eauto.
    + simpl. eauto.
Qed.

Section Frame.
Context {A : Type}.
Implicit Types (h : gmap positive A) (l : positive).

Lemma load_Some h l a : h !! l = Some a → load h (Some l) = Returns a.
Proof. unfold load. simpl. by intros ->. Qed.

Lemma assign_Some h l a (upd : A → A) :
  h !! l = Some a → assign h (Some l) upd = Returns (<[l := upd a]> h).
Proof. unfold assign. simpl. by intros ->. Qed.

(** What the object behind [ln] reads as after a write through [lo] that
    copies a field of that same object. *)
Lemma lookup_after_assign h lo ln o n (upd : A → A) :
  h !! lo = Some o → h !! ln = Some n →
  (lo = ln → upd n = n) →
  <[lo := upd o]> h !! ln = Some n.
Proof.
  intros Ho Hn Hid. destruct (decide (lo = ln)) as [->|Hne].
  - rewrite lookup_insert_eq. rewrite Ho in Hn. injection Hn as ->.
    f_equal. by apply Hid.
  - by rewrite lookup_insert_ne.
Qed.
End Frame.

Lemma cm_set_Labels_id (c : ConfigMap.t) :
  utils.cm_set_Labels (ObjectMeta.Labels (ConfigMap.ObjectMeta c)) c = c.
Proof. by destruct c as [? [] ? ? ?]. Qed.

Lemma cm_set_Data_id (c : ConfigMap.t) : utils.cm_set_Data (ConfigMap.Data c) c = c.
Proof. by destruct c. Qed.

Lemma cm_set_BinaryData_id (c : ConfigMap.t) :
  utils.cm_set_BinaryData (ConfigMap.BinaryData c) c = c.
Proof. by destruct c. Qed.

Lemma secret_set_Labels_id (s : Secret.t) :
  utils.secret_set_Labels (ObjectMeta.Labels (Secret.ObjectMeta s)) s = s.
Proof. by destruct s as [? [] ? ? ? ?]. Qed.

Lemma secret_set_Data_id (s : Secret.t) : utils.secret_set_Data (Secret.Data s) s = s.
Proof. by destruct s. Qed.

Lemma secret_set_StringData_id (s : Secret.t) :
  utils.secret_set_StringData (Secret.StringData s) s = s.
Proof. by destruct s. Qed.

Lemma secret_set_Type_id (s : Secret.t) : utils.secret_set_Type (Secret.Type' s) s = s.
Proof. by destruct s. Qed.

Lemma UpdateConfigMap_eq (h : gmap positive ConfigMap.t) lo ln o n :
  h !! lo = Some o → h !! ln = Some n →
  utils.UpdateConfigMap (Some lo) (Some ln) h
  = Returns (<[lo := ConfigMap_after o n]> h).
Proof.
  intros Ho Hn. unfold utils.UpdateConfigMap, ConfigMap_after.
  rewrite (load_Some _ _ _ Hn). simpl.
  rewrite (assign_Some _ _ _ _ Ho). simpl.
  set (o1 := utils.cm_set_Labels _ o).
  assert (H1 : <[lo := o1]> h !! ln = Some n).
  { apply lookup_after_assign; [done | done |]. intros _. apply cm_set_Labels_id. }
  rewrite (load_Some _ _ _ H1). simpl.
  rewrite (assign_Some _ lo o1); [| apply lookup_insert_eq]. simpl.
  rewrite insert_insert_eq.
  set (o2 := utils.cm_set_Data _ o1).
  assert (H2 : <[lo := o2]> h !! ln = Some n).
  { destruct (decide (lo = ln)) as [->|Hne].
    - rewrite lookup_insert_eq. f_equal. subst o2 o1.
      rewrite Ho in Hn. injection Hn as ->.
      by rewrite cm_set_Labels_id, cm_set_Data_id.
    - by rewrite lookup_insert_ne. }
  rewrite (load_Some _ _ _ H2). simpl.
  rewrite (assign_Some _ lo o2); [| apply lookup_insert_eq]. simpl.
  by rewrite insert_insert_eq.
Qed.

Lemma UpdateSecret_eq (h : gmap positive Secret.t) lo ln o n :
  h !! lo = Some o → h !! ln = Some n →
  utils.UpdateSecret (Some lo) (Some ln) h
  = Returns (<[lo := Secret_after o n]> h).
Proof.
  intros Ho Hn. unfold utils.UpdateSecret, Secret_after.
  rewrite (load_Some _ _ _ Hn). simpl.
  rewrite (assign_Some _ _ _ _ Ho). simpl.
  set (o1 := utils.secret_set_Labels _ o).
  assert (H1 : <[lo := o1]> h !! ln = Some n).
  { apply lookup_after_assign; [done | done |]. intros _. apply secret_set_Labels_id. }
  rewrite (load_Some _ _ _ H1). simpl.
  rewrite (assign_Some _ lo o1); [| apply lookup_insert_eq]. simpl.
  rewrite insert_insert_eq.
  set (o2 := utils.secret_set_Data _ o1).
  assert (H2 : <[lo := o2]> h !! ln = Some n).
  { destruct (decide (lo = ln)) as [->|Hne].
    - rewrite lookup_insert_eq. f_equal. subst o2 o1.
      rewrite Ho in Hn. injection Hn as ->.
      by rewrite secret_set_Labels_id, secret_set_Data_id.
    - by rewrite lookup_insert_ne. }
  rewrite (load_Some _ _ _ H2). simpl.
  rewrite (assign_Some _ lo o2); [| apply lookup_insert_eq]. simpl.
  rewrite insert_insert_eq.
  set (o3 := utils.secret_set_StringData _ o2).
  assert (H3 : <[lo := o3]> h !! ln = Some n).
  { destruct (decide (lo = ln)) as [->|Hne].
    - rewrite lookup_insert_eq. f_equal. subst o3 o2 o1.
      rewrite Ho in Hn. injection Hn as ->.
      by rewrite secret_set_Labels_id, secret_set_Data_id, secret_set_StringData_id.
    - by rewrite lookup_insert_ne. }
  rewrite (load_Some _ _ _ H3). simpl.
  rewrite (assign_Some _ lo o3); [| apply lookup_insert_eq]. simpl.
  by rewrite insert_insert_eq.
Qed.

Lemma ConfigMap_after_updated (o n : ConfigMap.t) :
  ConfigMap_updated o n (ConfigMap_after o n).
Proof. by destruct o as [? [] ? ? ?], n as [? [] ? ? ?]. Qed.

Lemma Secret_after_updated (o n : Secret.t) :
  Secret_updated o n (Secret_after o n).
Proof. by destruct o as [? [] ? ? ? ?], n as [? [] ? ? ? ?]. Qed.

Lemma ConfigMap_after_same (n : ConfigMap.t) : ConfigMap_after n n = n.
Proof.
  unfold ConfigMap_after.
  by rewrite cm_set_Labels_id, cm_set_Data_id, cm_set_BinaryData_id.
Qed.

Lemma Secret_after_same (n : Secret.t) : Secret_after n n = n.
Proof.
  unfold Secret_after.
  by rewrite secret_set_Labels_id, secret_set_Data_id, secret_set_StringData_id,
    secret_set_Type_id.
Qed.

(** C10: with [old] and [new] pointing to objects, [UpdateConfigMap] returns
    and leaves behind [old] the same ConfigMap but for its labels, data and
    binary data, which are those of the source; [UpdateSecret] does so for
    labels, data, string data and type. The source reads as before, and so
    does every object other than the destination. *)
Theorem Update_frame :
  (∀ (h : gmap positive ConfigMap.t) (old new : positive) (o n : ConfigMap.t),
     h !! old = Some o → h !! new = Some n →
     ∃ h' o',
       utils.UpdateConfigMap (Some old) (Some new) h = Returns h'
       ∧ h' !! old = Some o' ∧ ConfigMap_updated o n o'
       ∧ h' !! new = Some n
       ∧ ∀ l, l ≠ old → h' !! l = h !! l)
  ∧ (∀ (h : gmap positive Secret.t) (old new : positive) (o n : Secret.t),
     h !! old = Some o → h !! new = Some n →
     ∃ h' o',
       utils.UpdateSecret (Some old) (Some new) h = Returns h'
       ∧ h' !! old = Some o' ∧ Secret_updated o n o'
       ∧ h' !! new = Some n
       ∧ ∀ l, l ≠ old → h' !! l = h !! l).
Proof.
  split.
  - intros h old new o n Ho Hn.
    exists (<[old := ConfigMap_after o n]> h), (ConfigMap_after o n).
    split; [by apply UpdateConfigMap_eq |].
    split; [apply lookup_insert_eq |].
    split; [apply ConfigMap_after_updated |]. split.
    + destruct (decide (old = new)) as [->|Hne].
      * rewrite lookup_insert_eq. rewrite Ho in Hn. injection Hn as ->.
        by rewrite ConfigMap_after_same.
      * by rewrite lookup_insert_ne.
    + intros l Hl. by rewrite lookup_insert_ne.
  - intros h old new o n Ho Hn.
    exists (<[old := Secret_after o n]> h), (Secret_after o n).
    split; [by apply UpdateSecret_eq |].
    split; [apply lookup_insert_eq |].
    split; [apply Secret_after_updated |]. split.
    + destruct (decide (old = new)) as [->|Hne].
      * rewrite lookup_insert_eq. rewrite Ho in Hn. injection Hn as ->.
        by rewrite Secret_after_same.
      * by rewrite lookup_insert_ne.
    + intros l Hl. by rewrite lookup_insert_ne.
Qed.

(** ** The clusterlink data contracts (CRD manifests) *)

(** C1: the [spec] of a NodeConfig has exactly the five properties devices,
    routes, fdbs, arps and iptables. Each is an array of objects whose
    properties, all of them required, are id, name, mac, bindDev, addr, port
    and type for a device; cidr, dev and gw for a route; dev, ip and mac for
    an FDB entry and for an ARP entry; table, chain and rule for an iptables
    rule. *)
Theorem NodeConfig_spec_contract :
  ∃ spec,
    spec_schema manifest.ClusterlinkNodeConfig = Some spec
    ∧ openapi.property_names spec ≡ₚ ["devices"; "routes"; "fdbs"; "arps"; "iptables"]
    ∧ is_list_of spec "devices" ["id"; "name"; "mac"; "bindDev"; "addr"; "port"; "type"]
    ∧ is_list_of spec "routes" ["cidr"; "dev"; "gw"]
    ∧ is_list_of spec "fdbs" ["dev"; "ip"; "mac"]
    ∧ is_list_of spec "arps" ["dev"; "ip"; "mac"]
    ∧ is_list_of spec "iptables" ["table"; "chain"; "rule"].
Proof.
  eexists. split; [reflexivity |]. split; [by_computation |].
  repeat split; list_shown.
Qed.

(** The blocks that lack none of the required [ip] and [ip6]. *)
Lemma missing_ip_ip6 (schema block : yaml) :
  openapi.required schema = ["ip"; "ip6"] →
  openapi.missing schema block = []
  ↔ is_Some (openapi.get "ip" block) ∧ is_Some (openapi.get "ip6" block).
Proof.
  intros Hreq. unfold openapi.missing. rewrite Hreq.
  rewrite !filter_cons, filter_nil.
  destruct (openapi.get "ip" block) as [ip|], (openapi.get "ip6" block) as [ip6|];
    repeat case_decide; try done; split;
    try (intros [[? [=]] [? [=]]]); try (intros [[? [=]] _]);
    try (intros [_ [? [=]]]); try done; eauto.
Qed.

(** C2: in the Cluster CRD, [localCIDRs] left out is stored as ip
    210.0.0.0/8 and ip6 9480::/16, and [bridgeCIDRs] left out as ip
    220.0.0.0/8 and ip6 9470::/16, while a block that is given is kept. Both
    blocks have exactly the properties ip and ip6, both required: a block
    lacks no required property exactly when it carries the two. *)
Theorem Cluster_CIDR_defaults :
  ∃ spec localCIDRs bridgeCIDRs,
    spec_schema manifest.ClusterlinkCluster = Some spec
    ∧ openapi.property "localCIDRs" spec = Some localCIDRs
    ∧ openapi.property "bridgeCIDRs" spec = Some bridgeCIDRs
    ∧ openapi.defaulted localCIDRs None = Some (cidr_pair "210.0.0.0/8" "9480::/16")
    ∧ openapi.defaulted bridgeCIDRs None = Some (cidr_pair "220.0.0.0/8" "9470::/16")
    ∧ (∀ given, openapi.defaulted localCIDRs (Some given) = Some given
                ∧ openapi.defaulted bridgeCIDRs (Some given) = Some given)
    ∧ has_exactly_fields localCIDRs ["ip"; "ip6"]
    ∧ has_exactly_fields bridgeCIDRs ["ip"; "ip6"]
    ∧ (∀ block,
         (openapi.missing localCIDRs block = []
          ↔ is_Some (openapi.get "ip" block) ∧ is_Some (openapi.get "ip6" block))
         ∧ (openapi.missing bridgeCIDRs block = []
            ↔ is_Some (openapi.get "ip" block) ∧ is_Some (openapi.get "ip6" block))).
Proof.
  eexists _, _, _. split; [reflexivity |]. split; [reflexivity |].
  split; [reflexivity |]. split; [reflexivity |]. split; [reflexivity |].
  split; [done |].
  split; [split; [reflexivity | split; by_computation] |].
  split; [split; [reflexivity | split; by_computation] |].
  intros block. split; by apply missing_ip_ip6.
Qed.

(** C3: [networkType] in the Cluster CRD is a string whose enum lists p2p
    and gateway; these two strings and no other are admitted, and the field
    left out is stored as p2p. *)
Theorem Cluster_networkType :
  ∃ spec networkType,
    spec_schema manifest.ClusterlinkCluster = Some spec
    ∧ openapi.property "networkType" spec = Some networkType
    ∧ openapi.type_is "string" networkType
    ∧ openapi.enum networkType = Some ["p2p"; "gateway"]
    ∧ (∀ s, openapi.admits_string networkType s = true ↔ s = "p2p" ∨ s = "gateway")
    ∧ openapi.defaulted networkType None = Some (YStr "p2p").
Proof.
  eexists _, _. split; [reflexivity |]. split; [reflexivity |].
  split; [reflexivity |]. split; [reflexivity |]. split; [| reflexivity].
  intros s. unfold openapi.admits_string.
  match goal with
  | |- context [openapi.get "type" ?x] =>
      change (openapi.get "type" x) with (Some (YStr "string"));
      change (openapi.enum x) with (Some ["p2p"; "gateway"])
  end.
  change ("string" =? "string")%string with true. rewrite andb_true_l.
  rewrite bool_decide_eq_true. rewrite !elem_of_cons, elem_of_nil. tauto.
Qed.

Lemma property_index (schema : yaml) (entries : list (string * yaml)) name :
  openapi.get "properties" schema = Some (YMap entries) →
  openapi.property name schema = json.index entries name.
Proof. unfold openapi.property, openapi.path. simpl. by intros ->. Qed.

(** C4: the [status] of a NodeConfig is an object with exactly the two
    properties lastChangeTime and lastSyncTime, both strings of format
    date-time. No other property is declared, so none for a failure reason,
    and the schema neither allows additional properties nor keeps unknown
    fields. *)
Theorem NodeConfig_status_contract :
  ∃ status,
    status_schema manifest.ClusterlinkNodeConfig = Some status
    ∧ openapi.type_is "object" status
    ∧ openapi.property_names status ≡ₚ ["lastChangeTime"; "lastSyncTime"]
    ∧ is_date_time status "lastChangeTime"
    ∧ is_date_time status "lastSyncTime"
    ∧ (∀ name, name ≠ "lastChangeTime" → name ≠ "lastSyncTime" →
               openapi.property name status = None)
    ∧ openapi.get "additionalProperties" status = None
    ∧ openapi.get "x-kubernetes-preserve-unknown-fields" status = None.
Proof.
  eexists. split; [reflexivity |]. split; [reflexivity |].
  split; [by_computation |].
  split; [eexists; repeat split; reflexivity |].
  split; [eexists; repeat split; reflexivity |].
  split; [| split; reflexivity].
  intros name H1 H2. erewrite property_index; [| reflexivity].
  cbn -[String.eqb].
  apply String.eqb_neq in H1, H2.
  rewrite (String.eqb_sym "lastChangeTime"), H1.
  by rewrite (String.eqb_sym "lastSyncTime"), H2.
Qed.

(** ** The signal handler (package utils) *)









(** ** Merge patches (package utils, json-patch) *)

Section Induction.
Import json.

(** Induction on values and on documents, through the lists they hold. *)
Lemma value_rect' (P : value → Prop) :
  P VNil → (∀ b, P (VBool b)) → (∀ f, P (VFloat64 f)) → (∀ s, P (VString s)) →
  (∀ items, Forall P items → P (VSlice items)) →
  (∀ entries, Forall (fun e => P e.2) entries → P (VMap entries)) →
  (∀ f, P (VNumber f)) → P VFunc →
  ∀ v, P v.
Proof.
  intros Hnil Hbool Hfloat Hstring Hslice Hmap Hnumber Hfunc.
  fix IH 1.
  intros [| b | f | s | items | entries | f |];
    [apply Hnil | apply Hbool | apply Hfloat | apply Hstring | |
    | apply Hnumber | apply Hfunc].
  - apply Hslice. induction items as [|x items IHitems]; constructor; [apply IH | assumption].
  - apply Hmap. induction entries as [|[k x] entries IHentries]; constructor; [apply IH | assumption].
Qed.

Lemma doc_rect' (P : doc → Prop) :
  P JNull → (∀ b, P (JBool b)) → (∀ f, P (JNumber f)) → (∀ s, P (JString s)) →
  (∀ items, Forall P items → P (JArray items)) →
  (∀ members, Forall (fun e => P e.2) members → P (JObject members)) →
  ∀ d, P d.
Proof.
  intros Hnull Hbool Hnumber Hstring Harray Hobject.
  fix IH 1.
  intros [| b | f | s | items | members];
    [apply Hnull | apply Hbool | apply Hnumber | apply Hstring | |].
  - apply Harray. induction items as [|x items IHitems]; constructor; [apply IH | assumption].
  - apply Hobject. induction members as [|[k x] members IHm]; constructor; [apply IH | assumption].
Qed.
End Induction.

Section MergePatch.
Import json jsonpatch.

(** *** Maps kept as lists of entries *)

Lemma store_keys {V} (m : list (string * V)) k v :
  (store m k v).*1 = if decide (k ∈ m.*1) then m.*1 else m.*1 ++ [k].
Proof.
  induction m as [|[k' v'] m IH].
  - destruct (decide (k ∈ ([] : list (string * V)).*1)) as [Hin|_]; [| done].
    by apply elem_of_nil in Hin.
  - cbn [store]. destruct (String.eqb_spec k' k) as [->|Hne].
    + destruct (decide (k ∈ ((k, v') :: m).*1)) as [_|Hnin]; [done |].
      destruct Hnin. apply list_elem_of_here.
    + rewrite fmap_cons, IH. cbn [fst].
      destruct (decide (k ∈ m.*1)) as [Hin|Hnin];
        destruct (decide (k ∈ ((k', v') :: m).*1)) as [Hin'|Hnin']; try done.
      * destruct Hnin'. by apply list_elem_of_further.
      * rewrite fmap_cons in Hin'. cbn [fst] in Hin'.
        apply elem_of_cons in Hin' as [?|?]; [congruence | done].
Qed.

Lemma store_NoDup {V} (m : list (string * V)) k v :
  NoDup m.*1 → NoDup (store m k v).*1.
Proof.
  intros Hm. rewrite store_keys. case_decide as Hin; [done |].
  apply NoDup_app. split; [done |]. split.
  - intros x Hx ->%list_elem_of_singleton. done.
  - apply NoDup_singleton.
Qed.

Lemma store_Forall {V} (P : V → Prop) (m : list (string * V)) k v :
  Forall (fun e => P e.2) m → P v → Forall (fun e => P e.2) (store m k v).
Proof.
  intros Hm Hv. induction Hm as [|[k' v'] m Hv' Hm IH]; simpl.
  - by repeat constructor.
  - destruct (String.eqb k' k); constructor; auto.
Qed.

Lemma index_NoDup {V} (m : list (string * V)) k v :
  NoDup m.*1 → (k, v) ∈ m → index m k = Some v.
Proof.
  induction m as [|[k' v'] m IH]; simpl.
  - by intros _ ?%elem_of_nil.
  - intros [Hk' Hm]%NoDup_cons [[= -> ->]|Hin]%elem_of_cons.
    + by rewrite String.eqb_refl.
    + destruct (String.eqb_spec k' k) as [->|Hne]; [| by apply IH].
      destruct Hk'. apply list_elem_of_fmap. by exists (k, v).
Qed.

(** *** Reading a document *)

Lemma each_decode_ok (items : list doc) :
  Forall (fun d => fits_float64 d → ∃ w, decode d = Returns w ∧ decoded w) items →
  Forall fits_float64 items →
  ∃ ws, each decode items = Returns ws ∧ Forall decoded ws.
Proof.
  induction 1 as [|d items Hd _ IH]; simpl.
  - intros _. exists []. by split.
  - intros [Hok Hoks]%Forall_cons.
    destruct (Hd Hok) as (w & -> & Hw). destruct (IH Hoks) as (ws & -> & Hws).
    simpl. exists (w :: ws). split; [done | by constructor].
Qed.

Lemma each_member_decode_ok (members : list (string * doc)) :
  Forall (fun e => fits_float64 e.2 → ∃ w, decode e.2 = Returns w ∧ decoded w) members →
  Forall (fun e => fits_float64 e.2) members →
  ∀ m, NoDup m.*1 → Forall (fun e => decoded e.2) m →
       ∃ m', each_member decode members m = Returns m'
             ∧ NoDup m'.*1 ∧ Forall (fun e => decoded e.2) m'.
Proof.
  induction 1 as [|[k d] members Hd _ IH]; simpl.
  - intros _ m Hnd Hm. by exists m.
  - intros [Hok Hoks]%Forall_cons m Hnd Hm. cbn [snd] in Hd, Hok.
    destruct (Hd Hok) as (w & -> & Hw). simpl.
    apply (IH Hoks); [by apply store_NoDup | by apply store_Forall].
Qed.

Lemma decode_ok (d : doc) : fits_float64 d → ∃ w, decode d = Returns w ∧ decoded w.
Proof.
  induction d as [| b | f | s | items IH | members IH] using doc_rect';
    simpl; intros Hok.
  - exists VNil. split; [done | constructor].
  - exists (VBool b). split; [done | constructor].
  - inversion_clear Hok as [| | ? Hf | | |]. rewrite Hf.
    exists (VFloat64 f). split; [done | by constructor].
  - exists (VString s). split; [done | constructor].
  - inversion_clear Hok as [| | | | ? Hitems |].
    destruct (each_decode_ok items IH Hitems) as (ws & -> & Hws). simpl.
    exists (VSlice ws). split; [done | by constructor].
  - inversion_clear Hok as [| | | | | ? Hmembers].
    destruct (each_member_decode_ok members IH Hmembers [])
      as (m & -> & Hnd & Hm); [constructor | constructor |]. simpl.
    exists (VMap m). split; [done | by constructor].
Qed.
(** *** A decoded value matches itself *)

Lemma SFeqb_refl (f : spec_float) : is_finite f = true → SFeqb f f = true.
Proof.
  destruct f as [s | s | | s m e]; try done. intros _.
  unfold SFeqb, SFcompare.
  destruct s; rewrite Z.compare_refl, Pos.compare_cont_refl; done.
Qed.

Lemma same_type_refl (v : value) : same_type v v = true.
Proof. by destruct v. Qed.

Lemma range_items_refl (items : list value) :
  Forall (fun v => matchesValue v v = true) items →
  range_items matchesValue items items = true.
Proof. induction 1 as [|v items Hv _ IH]; simpl; [done |]. by rewrite Hv. Qed.

Lemma range_entries_refl (at' bt : list (string * value)) :
  NoDup at'.*1 → bt ⊆ at' →
  Forall (fun e => matchesValue e.2 e.2 = true) bt →
  range_entries matchesValue at' bt = true.
Proof.
  intros Hnd Hsub Hbt. induction Hbt as [|[k v] bt Hv _ IH]; simpl; [done |].
  rewrite (index_NoDup at' k v Hnd); [| apply Hsub, list_elem_of_here].
  cbn [snd] in Hv. rewrite Hv. simpl. apply IH.
  intros e He. by apply Hsub, list_elem_of_further.
Qed.

Lemma matchesValue_refl (v : value) : decoded v → matchesValue v v = true.
Proof.
  induction v as [| b | f | s | items IH | entries IH | f |] using value_rect';
    intros Hv; inversion_clear Hv as [| | ? Hf | | ? Hitems | ? Hnd Hentries];
    cbn [matchesValue same_type negb].
  - done.
  - by destruct b.
  - by apply SFeqb_refl.
  - apply String.eqb_refl.
  - rewrite Nat.eqb_refl. cbn [negb]. apply range_items_refl.
    rewrite Forall_forall in IH, Hitems. apply Forall_forall. auto.
  - rewrite Nat.eqb_refl. cbn [negb].
    apply range_entries_refl; [done | done |].
    rewrite Forall_forall in IH, Hentries. apply Forall_forall. auto.
Qed.

Lemma matchesArray_refl (items : list value) :
  Forall decoded items → matchesArray items items = true.
Proof.
  intros Hitems. unfold matchesArray. rewrite Nat.eqb_refl. cbn [negb].
  apply range_items_refl. eapply Forall_impl; [done |].
  apply matchesValue_refl.
Qed.

(** *** The diff of a decoded map with itself is empty *)

Lemma range_b_refl (a l into : list (string * value)) :
  NoDup a.*1 → l ⊆ a →
  Forall (fun e => decoded e.2
                   ∧ ∀ m, e.2 = VMap m → getDiff_in m e.2 = Returns []) l →
  range_b getDiff_in a l into = Returns into.
Proof.
  intros Hnd Hsub Hl. induction Hl as [|[key bv] l [Hbv Hdiff] _ IH];
    cbn [range_b]; [done |].
  assert (Hl : l ⊆ a) by (intros e He; by apply Hsub, list_elem_of_further).
  rewrite (index_NoDup a key bv Hnd); [| apply Hsub, list_elem_of_here].
  rewrite same_type_refl. cbn [negb snd] in *.
  inversion Hbv as [| b Hb | f Hf Hb | s Hb | items Hitems Hb | m Hm1 Hm2 Hb];
    subst bv.
  - by apply IH.
  - rewrite (matchesValue_refl _ Hbv). by apply IH.
  - rewrite (matchesValue_refl _ Hbv). by apply IH.
  - rewrite (matchesValue_refl _ Hbv). by apply IH.
  - rewrite (matchesArray_refl _ Hitems). by apply IH.
  - rewrite (Hdiff m eq_refl). simpl. by apply IH.
Qed.

Lemma range_a_refl (b a into : list (string * value)) :
  a.*1 ⊆ b.*1 → range_a b into a = into.
Proof.
  unfold range_a. revert into.
  induction a as [|[key v] a IH]; intros into Hsub; simpl; [done |].
  assert (Hkey : key ∈ b.*1) by apply Hsub, list_elem_of_here.
  apply list_elem_of_fmap in Hkey as ([key' v'] & -> & Hin). simpl.
  assert (Hsome : is_Some (index b key')).
  { clear -Hin. induction b as [|[k w] b IHb]; [by apply elem_of_nil in Hin |].
    simpl. destruct (String.eqb_spec k key'); [eauto |].
    apply elem_of_cons in Hin as [[= -> ->]|Hin]; [done | auto]. }
  destruct Hsome as [w ->]. apply IH.
  intros k Hk. by apply Hsub, list_elem_of_further.
Qed.

Lemma getDiff_in_refl (v : value) :
  decoded v → ∀ m, v = VMap m → getDiff_in m v = Returns [].
Proof.
  induction v as [| b | f | s | items IH | entries IH | f |] using value_rect';
    intros Hv m [=]. subst m.
  inversion_clear Hv as [| | | | | ? Hnd Hentries].
  cbn [getDiff_in].
  rewrite (range_b_refl entries entries []); [| done | done |].
  - simpl. by rewrite range_a_refl.
  - rewrite Forall_forall in IH, Hentries. apply Forall_forall.
    intros e He. split; [by apply Hentries |]. apply IH; [done |].
    by apply Hentries.
Qed.

Lemma getDiff_refl (m : list (string * value)) :
  decoded (VMap m) → getDiff m m = Returns [].
Proof. intros Hm. by apply (getDiff_in_refl (VMap m)). Qed.

(** *** The patch between a document and itself *)

Lemma Unmarshal_map_ok (d : doc) :
  fits_float64 d → d = JNull ∨ (∃ members, d = JObject members) →
  ∃ m, Unmarshal_map d = Returns m ∧ decoded (VMap m).
Proof.
  intros Hok [->|[members ->]].
  - exists []. split; [done |]. constructor; constructor.
  - destruct (decode_ok _ Hok) as (w & Hw & Hdec).
    unfold Unmarshal_map. rewrite Hw. simpl in Hw |- *.
    destruct (each_member decode members []) as [m| |]; simpl in Hw; [| done | done].
    injection Hw as <-. by exists m.
Qed.

Lemma createObjectMergePatch_same (d : doc) :
  fits_float64 d → d = JNull ∨ (∃ members, d = JObject members) →
  createObjectMergePatch d d = Returns (JObject []).
Proof.
  intros Hok Hd. destruct (Unmarshal_map_ok d Hok Hd) as (m & Hm & Hdec).
  unfold createObjectMergePatch. rewrite Hm. simpl.
  by rewrite (getDiff_refl m Hdec).
Qed.
End MergePatch.

(** C5, as amended: when the value marshals to a JSON object, or to null,
    and the numbers in it fit a [float64], [CreateMergePatch(v, v)] returns
    the empty merge patch. *)
Theorem CreateMergePatch_same_object (v : json.value) (d : json.doc) :
  json.Marshal v = Returns d →
  fits_float64 d →
  d = json.JNull ∨ (∃ members, d = json.JObject members) →
  utils.CreateMergePatch v v = Returns (json.JObject []).
Proof.
  intros Hd Hfits Hshape. unfold utils.CreateMergePatch. rewrite Hd. simpl.
  unfold jsonpatch.CreateMergePatch.
  assert (jsonpatch.resemblesJSONArray d = false) as ->
    by (by destruct Hshape as [->|[members ->]]).
  simpl. by rewrite createObjectMergePatch_same.
Qed.

(** C5 as stated fails: a string is JSON-serializable, and the patch of a
    string against itself is refused as a bad document. *)
Lemma CreateMergePatch_same_string_fails :
  ¬ (∀ v d, json.Marshal v = Returns d →
            utils.CreateMergePatch v v = Returns (json.JObject [])).
Proof.
  intros H. specialize (H (json.VString "kosmos") _ eq_refl).
  vm_compute in H. discriminate H.
Qed.

(** ** The statements above, at work on examples *)

Lemma Update_frame_witness :
  ∃ h', utils.UpdateConfigMap (Some 1%positive) (Some 2%positive) sample_configmaps
        = Returns h'
        ∧ h' !! 2%positive = Some configmap_new
        ∧ (ConfigMap.Data <$> h' !! 1%positive) = Some (ConfigMap.Data configmap_new).
Proof.
  destruct (proj1 Update_frame sample_configmaps 1%positive 2%positive
              configmap_old configmap_new eq_refl eq_refl)
    as (h' & o' & Hrun & Hold & Hupd & Hnew & _).
  exists h'. split; [exact Hrun |]. split; [exact Hnew |].
  rewrite Hold. simpl. f_equal. apply Hupd.
Defined.


(** A [json.Number] out of the range of [float64] makes an object that
    [Marshal] writes and that the patch generator cannot read back. *)
Example CreateMergePatch_same_out_of_range :
  utils.CreateMergePatch
    (json.VMap [("weight", json.VNumber (S754_infinity false))])
    (json.VMap [("weight", json.VNumber (S754_infinity false))])
  = Fails errBadJSONDoc.
Proof. reflexivity. Qed.

Lemma sample_nodeconfig_doc_fits : fits_float64 sample_nodeconfig_doc.
Proof. unfold sample_nodeconfig_doc. repeat constructor. Qed.

Lemma CreateMergePatch_same_object_witness :
  json.Marshal sample_nodeconfig = Returns sample_nodeconfig_doc
  ∧ fits_float64 sample_nodeconfig_doc
  ∧ utils.CreateMergePatch sample_nodeconfig sample_nodeconfig
    = Returns (json.JObject []).
Proof.
  split; [reflexivity |]. split; [exact sample_nodeconfig_doc_fits |].
  apply (CreateMergePatch_same_object sample_nodeconfig sample_nodeconfig_doc);
    [reflexivity | exact sample_nodeconfig_doc_fits
    | right; eexists; reflexivity].
Defined.

(** * Further properties of the helpers *)

(** ** Pod dependencies: when [getSecrets] returns *)

Lemma getSecrets_volume_panics (v : Volume.t) (acc : option (list string)) :
  ¬ secretRef_set v → k8sadapter.getSecrets_volume v acc = Panics nil_dereference.
Proof.
  unfold secretRef_set, k8sadapter.getSecrets_volume.
  destruct (Volume.Secret v) as [s|]; [by intros [] |].
  destruct (Volume.CephFS v) as [c|].
  { destruct (CephFSVolumeSource.SecretRef c); [intros []; eauto | done]. }
  destruct (Volume.Cinder v) as [c|].
  { destruct (CinderVolumeSource.SecretRef c); [intros []; eauto | done]. }
  destruct (Volume.RBD v) as [c|].
  { destruct (RBDVolumeSource.SecretRef c); [intros []; eauto | done]. }
  by intros [].
Qed.

Lemma secretRef_set_dec (v : Volume.t) : secretRef_set v ∨ ¬ secretRef_set v.
Proof.
  unfold secretRef_set.
  destruct (Volume.Secret v); [by left |].
  destruct (Volume.CephFS v) as [c|].
  { destruct (CephFSVolumeSource.SecretRef c); [left; eauto | right; by intros [? [=]]]. }
  destruct (Volume.Cinder v) as [c|].
  { destruct (CinderVolumeSource.SecretRef c); [left; eauto | right; by intros [? [=]]]. }
  destruct (Volume.RBD v) as [c|].
  { destruct (RBDVolumeSource.SecretRef c); [left; eauto | right; by intros [? [=]]]. }
  by left.
Qed.

Lemma getSecrets_volumes_panics (vs : list Volume.t) (acc : list string) :
  ¬ Forall secretRef_set vs →
  k8sadapter.getSecrets_volumes vs (Some acc) = Panics nil_dereference.
Proof.
  revert acc. induction vs as [|v vs IH]; intros acc Hvs; simpl.
  - destruct Hvs. constructor.
  - destruct (secretRef_set_dec v) as [Hv|Hv].
    + rewrite (getSecrets_volume_spec v acc Hv). simpl. apply IH.
      intros Hrest. apply Hvs. by constructor.
    + by rewrite (getSecrets_volume_panics v _ Hv).
Qed.

(** X4: [getSecrets] never returns an error. On a pod all of whose CephFS,
    Cinder and RBD volumes name their secret it returns a list; on any other
    pod it panics on the nil [SecretRef], whatever the image pull secrets;
    and on the nil pod the three helpers panic. *)
Theorem getSecrets_returns_or_panics (p : Pod.t) :
  ((Forall secretRef_set (pod_volumes p)
    ∧ ∃ names, k8sadapter.getSecrets (Some p) = Returns (Some names))
   ∨ (¬ Forall secretRef_set (pod_volumes p)
      ∧ k8sadapter.getSecrets (Some p) = Panics nil_dereference))
  ∧ k8sadapter.getSecrets None = Panics nil_dereference
  ∧ k8sadapter.getConfigmaps None = Panics nil_dereference
  ∧ k8sadapter.getPVCs None = Panics nil_dereference.
Proof.
  split; [| done].
  assert (Hdec : Forall secretRef_set (pod_volumes p)
                 ∨ ¬ Forall secretRef_set (pod_volumes p)).
  { induction (pod_volumes p) as [|v vs [IH|IH]]; [left; constructor | |].
    - destruct (secretRef_set_dec v) as [Hv|Hv]; [left; by constructor |].
      right. by intros [? ?]%Forall_cons.
    - right. by intros [? ?]%Forall_cons. }
  destruct Hdec as [Hvs|Hvs]; [left | right]; (split; [done |]).
  - unfold k8sadapter.getSecrets. simpl. fold (pod_volumes p).
    rewrite (getSecrets_volumes_spec _ [] Hvs). simpl.
    destruct (PodSpec.ImagePullSecrets (Pod.Spec p)) as [ss|]; simpl; [| eauto].
    rewrite append_names_spec. eauto.
  - unfold k8sadapter.getSecrets. simpl. fold (pod_volumes p).
    by rewrite (getSecrets_volumes_panics _ [] Hvs).
Qed.

(** ** Node conditions *)

Lemma checkNodeStatusReady_conditions_spec (cs : list NodeCondition.t) :
  k8sadapter.checkNodeStatusReady_conditions cs
  = bool_decide (Exists ready_condition cs).
Proof.
  induction cs as [|c cs IH]; cbn [k8sadapter.checkNodeStatusReady_conditions].
  - rewrite bool_decide_eq_false_2; [done | by intros ?%Exists_nil].
  - unfold NodeReady, ConditionTrue.
    destruct (String.eqb_spec (NodeCondition.Type' c) "Ready") as [Ht|Ht]; simpl.
    + destruct (String.eqb_spec (NodeCondition.Status c) "True") as [Hs|Hs].
      * rewrite bool_decide_eq_true_2; [done | by left].
      * rewrite IH. apply bool_decide_ext. rewrite Exists_cons.
        unfold ready_condition at 2. tauto.
    + rewrite IH. apply bool_decide_ext. rewrite Exists_cons.
      unfold ready_condition at 2. tauto.
Qed.

(** X5: [checkNodeStatusReady] answers true exactly when some condition of
    the node has type Ready and status True, so false on a node without
    conditions, and the answer does not depend on the order of the
    conditions; [compareNodeStatusReady] gives the two answers, old first;
    both panic on a nil node. *)
Theorem checkNodeStatusReady_spec :
  (∀ n : node_with_status,
     k8sadapter.checkNodeStatusReady (Some n)
     = Returns (bool_decide (Exists ready_condition (node_conditions n))))
  ∧ (∀ n n' : node_with_status,
       node_conditions n ≡ₚ node_conditions n' →
       k8sadapter.checkNodeStatusReady (Some n)
       = k8sadapter.checkNodeStatusReady (Some n'))
  ∧ (∀ o n : node_with_status,
       k8sadapter.compareNodeStatusReady (Some o) (Some n)
       = Returns (bool_decide (Exists ready_condition (node_conditions o)),
                  bool_decide (Exists ready_condition (node_conditions n))))
  ∧ k8sadapter.checkNodeStatusReady None = Panics nil_dereference
  ∧ (∀ n, k8sadapter.compareNodeStatusReady None n = Panics nil_dereference)
  ∧ (∀ o, k8sadapter.compareNodeStatusReady (Some o) None = Panics nil_dereference).
Proof.
  assert (Hspec : ∀ n : node_with_status,
             k8sadapter.checkNodeStatusReady (Some n)
             = Returns (bool_decide (Exists ready_condition (node_conditions n)))).
  { intros n. unfold k8sadapter.checkNodeStatusReady. simpl.
    by rewrite checkNodeStatusReady_conditions_spec. }
  split; [done |]. split; [| split; [| done]].
  - intros n n' Hperm. rewrite !Hspec. f_equal. apply bool_decide_ext.
    by rewrite Hperm.
  - intros o n. unfold k8sadapter.compareNodeStatusReady. by rewrite !Hspec.
Qed.

(** ** Custom node labels *)

Lemma Split_not_nil (s : string) (sep : Ascii.ascii) : Split s sep ≠ [].
Proof.
  destruct s as [|c s]; simpl; [done |].
  destruct (Ascii.eqb c sep); [done |]. by destruct (Split s sep).
Qed.

Lemma length_Split (s : string) (sep : Ascii.ascii) :
  length (Split s sep) = S (count_byte sep s).
Proof.
  induction s as [|c s IH]; simpl; [done |].
  destruct (Ascii.eqb c sep); simpl; [by rewrite IH |].
  pose proof (Split_not_nil s sep).
  destruct (Split s sep) as [|piece pieces]; [done |]. by rewrite <- IH.
Qed.

Lemma Split_no_sep (s : string) (sep : Ascii.ascii) :
  count_byte sep s = 0 → Split s sep = [s].
Proof.
  induction s as [|c s IH]; simpl; [done |].
  destruct (Ascii.eqb c sep); simpl; [done |]. intros Hs. by rewrite IH.
Qed.

Lemma Split_label_text (key val : string) :
  count_byte ":" key = 0 → count_byte ":" val = 0 →
  Split (label_text key val) ":" = [key; val].
Proof.
  intros Hkey Hval. unfold label_text.
  induction key as [|c key IH]; simpl in *.
  - by rewrite Split_no_sep.
  - destruct (Ascii.eqb c ":"); [done |]. by rewrite IH.
Qed.

Lemma Split_in_two (label : string) :
  count_byte ":" label = 1 → ∃ key val, Split label ":" = [key; val].
Proof.
  intros Hcount. pose proof (length_Split label ":") as Hlen.
  rewrite Hcount in Hlen.
  destruct (Split label ":") as [|key [|val [|? ?]]]; try done. eauto.
Qed.

Lemma Split_not_in_two (label : string) :
  count_byte ":" label ≠ 1 → ∀ key val, Split label ":" ≠ [key; val].
Proof.
  intros Hcount key val Hsplit. pose proof (length_Split label ":") as Hlen.
  rewrite Hsplit in Hlen. simpl in Hlen. lia.
Qed.

Lemma node_label_set (n : Node.t) labels key :
  node_label (k8sadapter.node_set_Labels (Some labels) n) key = labels !! key.
Proof. unfold node_label. by destruct n as [[]]. Qed.

(** X6: a label text [key:val] with no further colon, on a node that has a
    label map, sets the label of the trimmed key to the trimmed value and
    leaves all other labels and all other fields of the node as they
    were. *)
Theorem nodeCustomLabel_sets (TrimSpace : string → string) (n : Node.t)
    (labels : gmap string string) (key val : string) :
  ObjectMeta.Labels (Node.ObjectMeta n) = Some labels →
  count_byte ":" key = 0 → count_byte ":" val = 0 →
  ∃ n',
    k8sadapter.nodeCustomLabel TrimSpace (Some n) (label_text key val)
    = Returns (Some n')
    ∧ node_label n' (TrimSpace key) = Some (TrimSpace val)
    ∧ (∀ k, k ≠ TrimSpace key → node_label n' k = node_label n k)
    ∧ same_but_Labels (Node.ObjectMeta n) (Node.ObjectMeta n')
    ∧ Node.PodCIDR n' = Node.PodCIDR n.
Proof.
  intros Hlabels Hkey Hval. unfold k8sadapter.nodeCustomLabel.
  rewrite (Split_label_text key val Hkey Hval). simpl. rewrite Hlabels.
  eexists. split; [done |]. rewrite node_label_set. split; [| split; [| split]].
  - apply lookup_insert_eq.
  - intros k Hk. rewrite node_label_set, lookup_insert_ne by done.
    unfold node_label. by rewrite Hlabels.
  - by destruct n as [[]].
  - done.
Qed.

Lemma nodeCustomLabel_sets_witness :
  ∃ n',
    k8sadapter.nodeCustomLabel trim_blanks (Some sample_node)
      "clusterID: member-1" = Returns (Some n')
    ∧ node_label n' "clusterID" = Some "member-1"
    ∧ node_label n' "kubernetes.io/hostname" = Some "worker-1".
Proof.
  destruct (nodeCustomLabel_sets trim_blanks sample_node
              {[ "kubernetes.io/hostname" := "worker-1" ]} "clusterID" " member-1"
              eq_refl eq_refl eq_refl)
    as (n' & Hcall & Hset & Hother & _).
  exists n'. split; [exact Hcall |]. split; [exact Hset |].
  rewrite (Hother "kubernetes.io/hostname"); [reflexivity | discriminate].
Defined.

(** X7: a label text without a colon, or with more than one, changes
    nothing and never panics: the pointer comes back as it went in, the nil
    pointer too. *)
Theorem nodeCustomLabel_ignores (TrimSpace : string → string)
    (node : option Node.t) (label : string) :
  count_byte ":" label ≠ 1 →
  k8sadapter.nodeCustomLabel TrimSpace node label = Returns node.
Proof.
  intros Hcount. unfold k8sadapter.nodeCustomLabel.
  pose proof (Split_not_in_two label Hcount) as Hsplit.
  destruct (Split label ":") as [|key [|val [|? ?]]]; try done.
  by destruct (Hsplit key val).
Qed.

Lemma nodeCustomLabel_ignores_witness :
  k8sadapter.nodeCustomLabel trim_blanks None "zone:eu:west" = Returns None
  ∧ k8sadapter.nodeCustomLabel trim_blanks (Some sample_node) "gateway"
    = Returns (Some sample_node).
Proof.
  split.
  - apply (nodeCustomLabel_ignores trim_blanks None "zone:eu:west"). vm_compute. lia.
  - apply (nodeCustomLabel_ignores trim_blanks (Some sample_node) "gateway").
    vm_compute. lia.
Defined.

(** X8: a label text with exactly one colon panics on a node whose label
    map is nil (the write into the nil map) and on the nil node. *)
Theorem nodeCustomLabel_panics (TrimSpace : string → string) (label : string) :
  count_byte ":" label = 1 →
  k8sadapter.nodeCustomLabel TrimSpace None label = Panics nil_dereference
  ∧ ∀ n, ObjectMeta.Labels (Node.ObjectMeta n) = None →
         k8sadapter.nodeCustomLabel TrimSpace (Some n) label
         = Panics assignment_to_nil_map.
Proof.
  intros Hcount. destruct (Split_in_two label Hcount) as (key & val & Hsplit).
  unfold k8sadapter.nodeCustomLabel. rewrite Hsplit. split; [done |].
  intros n Hnil. simpl. by rewrite Hnil.
Qed.

Lemma nodeCustomLabel_panics_witness :
  k8sadapter.nodeCustomLabel trim_blanks (Some sample_node_without_labels)
    "clusterID:member-1" = Panics assignment_to_nil_map.
Proof.
  apply (nodeCustomLabel_panics trim_blanks "clusterID:member-1" eq_refl).
  reflexivity.
Defined.

(** X9: applying the same label text a second time changes nothing: the
    node a call leaves is left the same by the next call. *)
Theorem nodeCustomLabel_idempotent (TrimSpace : string → string)
    (node after : option Node.t) (label : string) :
  k8sadapter.nodeCustomLabel TrimSpace node label = Returns after →
  k8sadapter.nodeCustomLabel TrimSpace after label = Returns after.
Proof.
  unfold k8sadapter.nodeCustomLabel.
  destruct (Split label ":") as [|key [|val [|? ?]]];
    try (by intros [= <-]).
  destruct node as [[[? ? ? ? ? ? [labels|] ? ? ?] ?]|]; simpl; [| done | done].
  intros [= <-]. unfold k8sadapter.node_set_Labels, ObjectMeta.set_Labels. simpl.
  by rewrite insert_insert_eq.
Qed.

Lemma nodeCustomLabel_idempotent_witness :
  ∃ after,
    k8sadapter.nodeCustomLabel trim_blanks (Some sample_node) "type:kosmos-kubelet"
    = Returns after
    ∧ k8sadapter.nodeCustomLabel trim_blanks after "type:kosmos-kubelet"
      = Returns after.
Proof.
  eexists. split; [reflexivity |].
  apply (nodeCustomLabel_idempotent trim_blanks (Some sample_node)).
  reflexivity.
Defined.

(** X10: what the node helpers of package utils read after a custom label
    was set: the cluster id is the trimmed value when the trimmed key is
    clusterID, and the node is virtual exactly when the trimmed value is
    kosmos-kubelet when the trimmed key is type; a label of any other key
    leaves both answers as they were. *)
Theorem nodeCustomLabel_then_read (TrimSpace : string → string) (n : Node.t)
    (labels : gmap string string) (key val : string) :
  ObjectMeta.Labels (Node.ObjectMeta n) = Some labels →
  count_byte ":" key = 0 → count_byte ":" val = 0 →
  ∃ n',
    k8sadapter.nodeCustomLabel TrimSpace (Some n) (label_text key val)
    = Returns (Some n')
    ∧ (TrimSpace key = "clusterID" →
       utils.GetClusterID (Some n') = Returns (TrimSpace val))
    ∧ (TrimSpace key ≠ "clusterID" →
       utils.GetClusterID (Some n') = utils.GetClusterID (Some n))
    ∧ (TrimSpace key = "type" →
       utils.IsVirtualNode (Some n')
       = Returns (String.eqb (TrimSpace val) "kosmos-kubelet"))
    ∧ (TrimSpace key ≠ "type" →
       utils.IsVirtualNode (Some n') = utils.IsVirtualNode (Some n)).
Proof.
  intros Hlabels Hkey Hval.
  exists (k8sadapter.node_set_Labels
            (Some (<[TrimSpace key := TrimSpace val]> labels)) n).
  split.
  { unfold k8sadapter.nodeCustomLabel.
    rewrite (Split_label_text key val Hkey Hval). simpl. by rewrite Hlabels. }
  rewrite !GetClusterID_eq, !IsVirtualNode_eq, !node_label_set.
  change utils.ClusterID with "clusterID". change utils.NodeType with "type".
  unfold node_label. rewrite Hlabels. simpl.
  split; [| split; [| split]].
  - intros ->. by rewrite lookup_insert_eq.
  - intros Hne. by rewrite lookup_insert_ne.
  - intros ->. by rewrite lookup_insert_eq.
  - intros Hne. by rewrite lookup_insert_ne.
Qed.

Lemma nodeCustomLabel_then_read_witness :
  ∃ n',
    k8sadapter.nodeCustomLabel trim_blanks (Some sample_node)
      "clusterID: member-1" = Returns (Some n')
    ∧ utils.GetClusterID (Some n') = Returns "member-1"
    ∧ utils.IsVirtualNode (Some n') = Returns false.
Proof.
  destruct (nodeCustomLabel_then_read trim_blanks sample_node
              {[ "kubernetes.io/hostname" := "worker-1" ]} "clusterID" " member-1"
              eq_refl eq_refl eq_refl)
    as (n' & Hcall & Hid & _ & _ & Hvirtual).
  exists n'. split; [exact Hcall |]. split; [by apply Hid |].
  rewrite Hvirtual; [reflexivity | discriminate].
Defined.

(** ** Reading nodes and pods (package utils) *)

(** X11: [IsVirtualNode] answers true exactly on a node whose type label is
    kosmos-kubelet. [GetClusterID] returns the clusterID label of the node;
    its empty answer stands for the nil node, for a node without the label
    and for a node whose label is empty alike. *)
Theorem node_helpers_answers :
  (∀ node : option Node.t,
     utils.IsVirtualNode node = Returns true
     ↔ ∃ n, node = Some n ∧ node_label n "type" = Some "kosmos-kubelet")
  ∧ (∀ (n : Node.t) (c : string),
       utils.GetClusterID (Some n) = Returns c
       ↔ default "" (node_label n "clusterID") = c)
  ∧ (∀ node : option Node.t,
       utils.GetClusterID node = Returns ""
       ↔ node = None
         ∨ ∃ n, node = Some n
                ∧ (node_label n "clusterID" = None
                   ∨ node_label n "clusterID" = Some "")).
Proof.
  split; [| split].
  - intros [n|]; [| split; [done | by intros (? & [=] & _)]].
    rewrite IsVirtualNode_eq. change utils.NodeType with "type".
    change utils.KosmosKubeletLabel with "kosmos-kubelet". split.
    + destruct (node_label n "type") as [v|] eqn:Hl; [| done].
      intros [= Hv%String.eqb_eq]. subst v. by exists n.
    + intros (? & [= <-] & ->). done.
  - intros n c. rewrite GetClusterID_eq. change utils.ClusterID with "clusterID".
    split; [by intros [=] | by intros ->].
  - intros [n|]; [| split; [by left | done]].
    rewrite GetClusterID_eq. change utils.ClusterID with "clusterID". split.
    + intros [= Hc]. right. exists n. split; [done |].
      destruct (node_label n "clusterID") as [c|] eqn:Hl; [right | by left].
      simpl in Hc. by subst c.
    + intros [[=] | (? & [= <-] & [-> | ->])]; done.
Qed.

(** X12: [IsVirtualPod] answers true exactly on a pod whose kosmos-pod label
    is the text true, false on a pod with a nil label map, and, unlike
    [IsVirtualNode], panics on the nil pod. *)
Theorem IsVirtualPod_spec :
  (∀ p : Pod.t,
     utils.IsVirtualPod (Some p)
     = Returns (bool_decide (pod_label p "kosmos-pod" = Some "true")))
  ∧ utils.IsVirtualPod None = Panics nil_dereference
  ∧ utils.IsVirtualNode None = Returns false.
Proof.
  split; [| done]. intros p.
  destruct (decide (pod_label p "kosmos-pod" = Some "true")) as [Hl|Hl];
    [rewrite bool_decide_eq_true_2 by done
    | rewrite bool_decide_eq_false_2 by done];
    unfold utils.IsVirtualPod, pod_label in *;
    change utils.KosmosPodLabel with "kosmos-pod"; simpl in *;
    destruct (ObjectMeta.Labels (Pod.ObjectMeta p)) as [labels|]; simpl in *;
    try done.
  - by rewrite Hl.
  - destruct (labels !! "kosmos-pod") as [v|]; simpl; [| done].
    destruct (String.eqb_spec v "true") as [->|Hne]; done.
Qed.

(** ** Updating ConfigMaps and Secrets: nil pointers and repetition *)

Lemma load_returns {A} (h : gmap positive A) (p : ptr) (a : A) :
  load h p = Returns a → ∃ l, p = Some l ∧ h !! l = Some a.
Proof.
  unfold load. destruct p as [l|]; simpl; [| done].
  destruct (h !! l) as [a'|] eqn:Hl; [| done]. intros [= <-]. eauto.
Qed.

Lemma assign_returns {A} (h h' : gmap positive A) (p : ptr) (upd : A → A) :
  assign h p upd = Returns h' → ∃ l a, p = Some l ∧ h !! l = Some a.
Proof.
  unfold assign. destruct p as [l|]; simpl; [| done].
  destruct (h !! l) as [a|] eqn:Hl; [| done]. eauto.
Qed.

Lemma load_nil_or_object {A} (h : gmap positive A) (p : ptr) :
  nil_or_object h p →
  load h p = Panics nil_dereference ∧ p = None
  ∨ ∃ l a, p = Some l ∧ h !! l = Some a ∧ load h p = Returns a.
Proof.
  intros Hp. destruct p as [l|]; [right | by left].
  destruct (Hp l eq_refl) as [a Ha]. exists l, a.
  split; [done |]. split; [done |]. by apply load_Some.
Qed.

Lemma UpdateConfigMap_returns (h h' : gmap positive ConfigMap.t) old new :
  utils.UpdateConfigMap old new h = Returns h' →
  ∃ lo ln o n, old = Some lo ∧ new = Some ln ∧ h !! lo = Some o ∧ h !! ln = Some n.
Proof.
  unfold utils.UpdateConfigMap.
  destruct (load h new) as [n| |] eqn:Hn; simpl; [| done | done].
  apply load_returns in Hn as (ln & -> & Hn).
  destruct (assign h old _) as [h1| |] eqn:Ho; simpl; [| done | done].
  apply assign_returns in Ho as (lo & o & -> & Ho). intros _. by exists lo, ln, o, n.
Qed.

Lemma UpdateSecret_returns (h h' : gmap positive Secret.t) old new :
  utils.UpdateSecret old new h = Returns h' →
  ∃ lo ln o n, old = Some lo ∧ new = Some ln ∧ h !! lo = Some o ∧ h !! ln = Some n.
Proof.
  unfold utils.UpdateSecret.
  destruct (load h new) as [n| |] eqn:Hn; simpl; [| done | done].
  apply load_returns in Hn as (ln & -> & Hn).
  destruct (assign h old _) as [h1| |] eqn:Ho; simpl; [| done | done].
  apply assign_returns in Ho as (lo & o & -> & Ho). intros _. by exists lo, ln, o, n.
Qed.

(** X13: [UpdateConfigMap] and [UpdateSecret] panic with a nil dereference
    as soon as one of the two pointers is nil, whichever it is; with two
    objects they return. *)
Theorem Update_nil_panics :
  (∀ (h : gmap positive ConfigMap.t) (old new : ptr),
     nil_or_object h old → nil_or_object h new →
     (old = None ∨ new = None →
      utils.UpdateConfigMap old new h = Panics nil_dereference)
     ∧ (old ≠ None → new ≠ None →
        ∃ h', utils.UpdateConfigMap old new h = Returns h'))
  ∧ (∀ (h : gmap positive Secret.t) (old new : ptr),
       nil_or_object h old → nil_or_object h new →
       (old = None ∨ new = None →
        utils.UpdateSecret old new h = Panics nil_dereference)
       ∧ (old ≠ None → new ≠ None →
          ∃ h', utils.UpdateSecret old new h = Returns h')).
Proof.
  split.
  - intros h old new Hold Hnew. split.
    + intros Hnil. unfold utils.UpdateConfigMap.
      destruct (load_nil_or_object h new Hnew)
        as [[-> _] | (ln & n & -> & Hn & ->)]; [done |].
      destruct Hnil as [-> | [=]]. done.
    + intros Ho Hn. destruct old as [lo|], new as [ln|]; try done.
      destruct (Hold lo eq_refl) as [o Hlo], (Hnew ln eq_refl) as [n Hln].
      eexists. by apply UpdateConfigMap_eq.
  - intros h old new Hold Hnew. split.
    + intros Hnil. unfold utils.UpdateSecret.
      destruct (load_nil_or_object h new Hnew)
        as [[-> _] | (ln & n & -> & Hn & ->)]; [done |].
      destruct Hnil as [-> | [=]]. done.
    + intros Ho Hn. destruct old as [lo|], new as [ln|]; try done.
      destruct (Hold lo eq_refl) as [o Hlo], (Hnew ln eq_refl) as [n Hln].
      eexists. by apply UpdateSecret_eq.
Qed.

Lemma Update_nil_panics_witness :
  utils.UpdateConfigMap None (Some 2%positive) sample_configmaps
  = Panics nil_dereference
  ∧ utils.UpdateSecret (Some 1%positive) None sample_secrets
    = Panics nil_dereference.
Proof.
  split.
  - apply (proj1 Update_nil_panics sample_configmaps None (Some 2%positive));
      [by intros ? [=] | | by left].
    intros l [= <-]. by eexists.
  - apply (proj2 Update_nil_panics sample_secrets (Some 1%positive) None);
      [| by intros ? [=] | by right].
    intros l [= <-]. by eexists.
Defined.

Lemma ConfigMap_after_after (o n : ConfigMap.t) :
  ConfigMap_after (ConfigMap_after o n) n = ConfigMap_after o n.
Proof. by destruct o as [? [] ? ? ?], n as [? [] ? ? ?]. Qed.

Lemma ConfigMap_after_back (o n : ConfigMap.t) :
  ConfigMap_after n (ConfigMap_after o n) = n.
Proof. by destruct o as [? [] ? ? ?], n as [? [] ? ? ?]. Qed.

Lemma Secret_after_after (o n : Secret.t) :
  Secret_after (Secret_after o n) n = Secret_after o n.
Proof. by destruct o as [? [] ? ? ? ?], n as [? [] ? ? ? ?]. Qed.

Lemma Secret_after_back (o n : Secret.t) :
  Secret_after n (Secret_after o n) = n.
Proof. by destruct o as [? [] ? ? ? ?], n as [? [] ? ? ? ?]. Qed.

Section Repeat.
Context {A : Type} (after : A → A → A).
Hypothesis after_same : ∀ n, after n n = n.
Hypothesis after_after : ∀ o n, after (after o n) n = after o n.
Hypothesis after_back : ∀ o n, after n (after o n) = n.

(** Once [old] was brought up to [new], doing it again, or the other way
    round, writes what is already there. *)
Lemma update_settled (h : gmap positive A) (lo ln : positive) (o n : A) :
  h !! lo = Some o → h !! ln = Some n →
  let h' := <[lo := after o n]> h in
  ∃ o' n', h' !! lo = Some o' ∧ h' !! ln = Some n'
           ∧ <[lo := after o' n']> h' = h'
           ∧ <[ln := after n' o']> h' = h'.
Proof.
  intros Ho Hn h'. exists (after o n), n.
  assert (Hlo : h' !! lo = Some (after o n)) by apply lookup_insert_eq.
  assert (Hln : h' !! ln = Some n).
  { subst h'. destruct (decide (lo = ln)) as [->|Hne].
    - rewrite lookup_insert_eq. rewrite Ho in Hn. injection Hn as ->.
      by rewrite after_same.
    - by rewrite lookup_insert_ne. }
  split; [done |]. split; [done |]. split.
  - rewrite after_after. by apply insert_id.
  - rewrite after_back. by apply insert_id.
Qed.
End Repeat.

(** X14: an update that has returned is settled: running it again on the
    store it left, or running it from the destination back to the source,
    returns the same store. This holds for [UpdateConfigMap] and for
    [UpdateSecret], also when both pointers are the same. *)
Theorem Update_settled :
  (∀ (h h' : gmap positive ConfigMap.t) (old new : ptr),
     utils.UpdateConfigMap old new h = Returns h' →
     utils.UpdateConfigMap old new h' = Returns h'
     ∧ utils.UpdateConfigMap new old h' = Returns h')
  ∧ (∀ (h h' : gmap positive Secret.t) (old new : ptr),
       utils.UpdateSecret old new h = Returns h' →
       utils.UpdateSecret old new h' = Returns h'
       ∧ utils.UpdateSecret new old h' = Returns h').
Proof.
  split.
  - intros h h' old new Hrun.
    destruct (UpdateConfigMap_returns _ _ _ _ Hrun)
      as (lo & ln & o & n & -> & -> & Ho & Hn).
    rewrite (UpdateConfigMap_eq h lo ln o n Ho Hn) in Hrun. injection Hrun as <-.
    destruct (update_settled ConfigMap_after ConfigMap_after_same
                ConfigMap_after_after ConfigMap_after_back h lo ln o n Ho Hn)
      as (o' & n' & Hlo & Hln & Hagain & Hback).
    split.
    + by rewrite (UpdateConfigMap_eq _ lo ln o' n' Hlo Hln), Hagain.
    + by rewrite (UpdateConfigMap_eq _ ln lo n' o' Hln Hlo), Hback.
  - intros h h' old new Hrun.
    destruct (UpdateSecret_returns _ _ _ _ Hrun)
      as (lo & ln & o & n & -> & -> & Ho & Hn).
    rewrite (UpdateSecret_eq h lo ln o n Ho Hn) in Hrun. injection Hrun as <-.
    destruct (update_settled Secret_after Secret_after_same
                Secret_after_after Secret_after_back h lo ln o n Ho Hn)
      as (o' & n' & Hlo & Hln & Hagain & Hback).
    split.
    + by rewrite (UpdateSecret_eq _ lo ln o' n' Hlo Hln), Hagain.
    + by rewrite (UpdateSecret_eq _ ln lo n' o' Hln Hlo), Hback.
Qed.

Lemma Update_settled_witness :
  ∃ h', utils.UpdateConfigMap (Some 1%positive) (Some 2%positive) sample_configmaps
        = Returns h'
        ∧ utils.UpdateConfigMap (Some 1%positive) (Some 2%positive) h' = Returns h'
        ∧ utils.UpdateConfigMap (Some 2%positive) (Some 1%positive) h' = Returns h'.
Proof.
  eexists. split; [apply (UpdateConfigMap_eq sample_configmaps 1 2); reflexivity |].
  apply (proj1 Update_settled sample_configmaps).
  apply (UpdateConfigMap_eq sample_configmaps 1 2); reflexivity.
Defined.

(** ** The signal handler: the channel's buffer and the exit *)











(** ** The three CRD manifests *)

(** X18: each of the three CRDs (ClusterNode, Cluster, NodeConfig) is named
    plural.group, is cluster-scoped, serves and stores the one version
    v1alpha1, requires [spec], and has only printer columns whose path
    leads to a property its schema declares. *)
Theorem manifests_consistent :
  Forall crd_consistent
    [manifest.ClusterlinkClusterNode; manifest.ClusterlinkCluster;
     manifest.ClusterlinkNodeConfig].
Proof.
  assert (Hcheck : ∀ crd version schema,
            is_Some (crd_name crd) → crd_name crd = crd_plural_group crd →
            scalar (openapi.path ["spec"; "scope"] crd) = Some "Cluster" →
            crd_versions crd = [version] →
            openapi.get "name" version = Some (YStr "v1alpha1") →
            openapi.get "served" version = Some (YBool true) →
            openapi.get "storage" version = Some (YBool true) →
            openapi.openAPIV3Schema crd = Some schema →
            openapi.required schema = ["spec"] →
            forallb (resolves schema) (printer_paths version) = true →
            crd_consistent crd).
  { intros crd version schema ? ? ? ? ? ? ? ? ? ?.
    split; [done |]. split; [done |]. split; [done |]. by exists version, schema. }
  apply Forall_cons_2; [| apply Forall_cons_2; [| apply Forall_cons_2;
                                                  [| by apply Forall_nil]]];
    (eapply Hcheck; [by eexists | reflexivity ..]).
Qed.
